(** * loadfile: routing an identifier to a reader and to a decoder

    A shallow embedding of [loadfile.go]: the [Loader] registry (a Go map from
    compiled patterns to [TypeLoader]s plus a fallback), [GetReader],
    [GetReadCloser] and [Load], with the resources behind an [io.Reader]
    threaded as explicit state. *)

From Stdlib Require Import Ascii String List Arith Lia Permutation.
From stdpp Require Import base option list gmap strings.

Local Open Scope string_scope.
Local Open Scope list_scope.
Local Open Scope nat_scope.

(** ** Go strings

    A Go string is a sequence of bytes; [string] of the standard library is a
    sequence of [ascii] (8-bit) characters. *)

Module Strings.

Definition bytes (s : string) : list ascii := list_ascii_of_string s.

(** [strings.ToLower] on the ASCII range: 'A'..'Z' become 'a'..'z', every
    other byte below 0x80 is kept. Bytes from 0x80 on belong to multi-byte
    runes, which Go lower-cases by Unicode tables; no rune outside ASCII
    lower-cases to one of the letters of "json", "xml", "yml" or "yaml"
    (the only ASCII targets are 'k' and 'i'), so for the comparisons made
    by [Load] the byte-wise function decides the same as Go's. *)
Definition lowerByte (c : ascii) : ascii :=
  let n := nat_of_ascii c in
  if ((65 <=? n)%nat && (n <=? 90)%nat)%bool then ascii_of_nat (n + 32) else c.

Fixpoint ToLower (s : string) : string :=
  match s with
  | EmptyString => EmptyString
  | String c s' => String (lowerByte c) (ToLower s')
  end.

(** [strings.Split(s, sep)] for a one-byte separator: the pieces of [s]
    between consecutive occurrences of [sep]; [n] separators give [n + 1]
    pieces, so the result is never empty. *)
Fixpoint Split (s : string) (sep : ascii) : list string :=
  match s with
  | EmptyString => [EmptyString]
  | String c s' =>
      if Ascii.eqb c sep then EmptyString :: Split s' sep
      else match Split s' sep with
           | p :: ps => String c p :: ps
           | [] => [String c EmptyString]
           end
  end.

End Strings.

(** ** Go's regexp package, for the syntax the repository uses

    [regexp.MustCompile] parses a pattern; the model starts from the parsed
    pattern. Text is scanned byte by byte: the patterns here are ASCII, and on
    them Go's rune-wise scan consumes the same bytes ('/' and newline never
    occur inside a multi-byte rune). *)

Module Regexp.

Inductive Regexp : Type :=
| RBegin                          (* ^   without the m flag: start of text *)
| REnd                            (* $   without the m flag: end of text *)
| RLit (c : ascii)                (* a literal byte, also written escaped *)
| RAnyNotNL                       (* .   without the s flag *)
| RNotIn (cs : list ascii)        (* [^...] ; matches newline too *)
| RCat (r1 r2 : Regexp)
| RAlt (r1 r2 : Regexp)
| RStar (r : Regexp)              (* greedy *)
| RPlus (r : Regexp)              (* greedy *)
| RCap (i : nat) (r : Regexp).    (* the i-th capturing group, i >= 1 *)

(** Submatch spans, most recent binding first: group index, start and end
    offset in the text. *)
Definition Caps : Type := list (nat * (nat * nat)).

Fixpoint capLookup (i : nat) (cs : Caps) : option (nat * nat) :=
  match cs with
  | [] => None
  | (j, sp) :: cs' => if Nat.eqb i j then Some sp else capLookup i cs'
  end.

(** A continuation receives the offset reached, the text still to scan and
    the spans recorded so far. *)
Definition Cont : Type := nat -> list ascii -> Caps -> option Caps.

Definition orElse (a b : option Caps) : option Caps :=
  match a with
  | Some c => Some c
  | None => b
  end.

Definition newline : ascii := ascii_of_nat 10.

Definition inClass (c : ascii) (cs : list ascii) : bool :=
  existsb (Ascii.eqb c) cs.

(** The greedy loop of [r*]: try one more iteration of the body [m], which
    must consume something, before giving the rest to [k]. [n] bounds the
    number of iterations and is at least the length of the text left. *)
Fixpoint starLoop (m : nat -> list ascii -> Caps -> Cont -> option Caps)
    (k : Cont) (n : nat) (pos : nat) (s : list ascii) (caps : Caps)
    : option Caps :=
  match n with
  | 0 => k pos s caps
  | S n' =>
      orElse
        (m pos s caps
           (fun pos' s' caps' =>
              if (length s' <? length s)%nat
              then starLoop m k n' pos' s' caps'
              else None))
        (k pos s caps)
  end.

(** Leftmost-first matching by backtracking: [run r pos s caps k] matches
    [r] against a prefix of [s], which starts at offset [pos] of the text,
    and continues with [k]; alternatives are tried in the order Go's
    matcher prefers them. *)
Fixpoint run (r : Regexp) (pos : nat) (s : list ascii) (caps : Caps)
    (k : Cont) {struct r} : option Caps :=
  match r with
  | RBegin => if Nat.eqb pos 0 then k pos s caps else None
  | REnd => match s with
            | [] => k pos s caps
            | _ :: _ => None
            end
  | RLit c => match s with
              | c' :: s' => if Ascii.eqb c' c then k (S pos) s' caps else None
              | [] => None
              end
  | RAnyNotNL => match s with
                 | c' :: s' =>
                     if Ascii.eqb c' newline then None else k (S pos) s' caps
                 | [] => None
                 end
  | RNotIn cs => match s with
                 | c' :: s' =>
                     if inClass c' cs then None else k (S pos) s' caps
                 | [] => None
                 end
  | RCat r1 r2 =>
      run r1 pos s caps (fun pos' s' caps' => run r2 pos' s' caps' k)
  | RAlt r1 r2 => orElse (run r1 pos s caps k) (run r2 pos s caps k)
  | RStar r1 => starLoop (run r1) k (length s) pos s caps
  | RPlus r1 =>
      run r1 pos s caps
        (fun pos' s' caps' => starLoop (run r1) k (length s') pos' s' caps')
  | RCap i r1 =>
      run r1 pos s caps
        (fun pos' s' caps' => k pos' s' ((i, (pos, pos')) :: caps'))
  end.

(** The number of capturing groups, [re.NumSubexp()]. *)
Fixpoint NumSubexp (r : Regexp) : nat :=
  match r with
  | RCat r1 r2 | RAlt r1 r2 => Nat.max (NumSubexp r1) (NumSubexp r2)
  | RStar r1 | RPlus r1 => NumSubexp r1
  | RCap i r1 => Nat.max i (NumSubexp r1)
  | _ => 0
  end.

(** A match of [r] that starts at offset [pos]: group 0 is the whole
    match. *)
Definition matchAt (r : Regexp) (pos : nat) (s : list ascii)
    : option Caps :=
  run r pos s [] (fun pos' _ caps' => Some ((0, (pos, pos')) :: caps')).

(** The leftmost match: start offsets are tried from the left. *)
Fixpoint search (r : Regexp) (pos : nat) (s : list ascii) : option Caps :=
  orElse (matchAt r pos s)
         (match s with
          | [] => None
          | _ :: s' => search r (S pos) s'
          end).

Definition slice (text : list ascii) (sp : nat * nat) : string :=
  string_of_list_ascii (take (snd sp - fst sp) (drop (fst sp) text)).

(** [re.FindStringSubmatch(s)]: [None] is Go's nil slice (no match);
    otherwise the text of the match and of each group, the empty string for
    a group that took no part. *)
Definition FindStringSubmatch (re : Regexp) (s : string)
    : option (list string) :=
  let text := Strings.bytes s in
  match search re 0 text with
  | None => None
  | Some caps =>
      Some (map (fun i => match capLookup i caps with
                          | Some sp => slice text sp
                          | None => EmptyString
                          end)
                (seq 0 (S (NumSubexp re))))
  end.

(** [re.MatchString(s)]: whether [s] contains any match of [re]. *)
Definition MatchString (re : Regexp) (s : string) : bool :=
  match search re 0 (Strings.bytes s) with
  | Some _ => true
  | None => false
  end.

Fixpoint lits (s : string) (rest : Regexp) : Regexp :=
  match s with
  | EmptyString => rest
  | String c s' => RCat (RLit c) (lits s' rest)
  end.

End Regexp.

Import Regexp.

(** [reS3Filename]: start of text, the literal "s3://", group 1 = one or
    more bytes other than '/', a literal '/', group 2 = any run of bytes
    other than newline, end of text. In the pattern's source every slash is
    written escaped, which denotes the literal byte. *)
Definition reS3Filename : Regexp :=
  RCat RBegin
    (lits "s3://"
       (RCat (RCap 1 (RPlus (RNotIn ["/"%char])))
          (RCat (RLit "/")
             (RCat (RCap 2 (RStar RAnyNotNL)) REnd)))).

(** ** Errors, readers and the resources behind them *)

Inductive error : Type :=
| ErrorNoReader            (* "No Loader matched the given filename" *)
| ErrorBadS3Match          (* "Impossible bad match passed to S3Loader" *)
| ErrorFrom (code : nat).  (* an error value made by a collaborator *)

(** A call either returns or panics. *)
Inductive Go (A : Type) : Type :=
| Returns (a : A)
| Panics.
Arguments Returns {A} a.
Arguments Panics {A}.

(** An [io.Reader] value. [content] is what successive [Read] calls hand
    out, piece by piece, into buffers large enough for each piece; [readErr]
    is what [Read] reports after that ([None] is [io.EOF]); [closer] tells
    whether the dynamic type has a [Close] method and what that method
    returns. *)
Record Reader : Type := {
  content : list (list ascii);
  readErr : option error;
  closer : option (option error)
}.

(** The state of the resource behind a reader. *)
Record Stream : Type := {
  unread : list (list ascii);
  closeCalls : nat
}.

Definition open (r : Reader) : Stream :=
  {| unread := content r; closeCalls := 0 |}.

(** [reader.(io.Closer)]: the [Close] method, when there is one. *)
Definition asCloser (r : Reader)
    : option (Stream -> Stream * option error) :=
  match closer r with
  | Some res =>
      Some (fun st =>
              ({| unread := unread st; closeCalls := S (closeCalls st) |}, res))
  | None => None
  end.

(** [ioutil.ReadAll]: reads until [Read] reports the end; [io.EOF] is not an
    error. *)
Definition ReadAll (r : Reader) (st : Stream)
    : list ascii * option error * Stream :=
  (concat (unread st), readErr r,
   {| unread := []; closeCalls := closeCalls st |}).

(** A pair [(io.Reader, error)] as the providers return it: the reader with
    a nil error, or a nil reader with the error. *)
Definition ReaderOrError : Type := Reader + error.

(** ** The collaborators

    The decoders of encoding/json and encoding/xml read from the reader they
    are given: they ask for more input while the value they are reading is
    incomplete and stop asking once it is complete or found malformed. The
    byte-level grammar is the library's: [scan] judges the input read so far,
    [finish] the input of a stream that has ended. *)

Inductive Verdict (T : Type) : Type :=
| NeedMore
| Done (t : T) (e : option error).
Arguments NeedMore {T}.
Arguments Done {T} t e.

Record StreamDecoder (T : Type) : Type := {
  scan : list ascii -> T -> Verdict T;
  finish : list ascii -> T -> T * option error
}.
Arguments scan {T} _ _ _.
Arguments finish {T} _ _ _.

(** [NewDecoder(reader).Decode(into)]: [buf] is the input read so far. A
    failed [Read] ends the call with that error. *)
Fixpoint decodeLoop {T : Type} (d : StreamDecoder T) (readErr : option error)
    (buf : list ascii) (unread : list (list ascii)) (into : T)
    : list (list ascii) * T * option error :=
  match unread with
  | [] =>
      match readErr with
      | None => let (t, e) := finish d buf into in ([], t, e)
      | Some e => ([], into, Some e)
      end
  | chunk :: rest =>
      match scan d (buf ++ chunk) into with
      | Done t e => (rest, t, e)
      | NeedMore => decodeLoop d readErr (buf ++ chunk) rest into
      end
  end.

Definition Decode {T : Type} (d : StreamDecoder T) (r : Reader) (st : Stream)
    (into : T) : Stream * T * option error :=
  let '(rest, t, e) := decodeLoop d (readErr r) [] (unread st) into in
  ({| unread := rest; closeCalls := closeCalls st |}, t, e).

(** What lies outside the package: the values [into] can hold, the AWS
    session and object store, the file system, and the three decoders. *)
Record World : Type := {
  Target : Type;
  sessionFails : bool;
  s3GetObject : string -> string -> ReaderOrError;
  osOpen : string -> ReaderOrError;
  jsonDecoder : StreamDecoder Target;
  xmlDecoder : StreamDecoder Target;
  yamlUnmarshal : list ascii -> Target -> Target * option error
}.

(** ** TypeLoader and its implementations *)

Inductive Provider : Type :=
| S3Loader
| FileLoader
| OtherLoader (get : string -> Go ReaderOrError).

(** A value of interface type [TypeLoader]; [None] is the nil interface. *)
Definition TypeLoader : Type := option Provider.

Definition S3Loader_GetReader (w : World) (filename : string)
    : Go ReaderOrError :=
  let parts := match FindStringSubmatch reS3Filename filename with
               | Some ps => ps
               | None => []
               end in
  if negb (Nat.eqb (length parts) 3) then Returns (inr ErrorBadS3Match)
  else
    let bucket := nth 1 parts EmptyString in
    let key := nth 2 parts EmptyString in
    (* session.Must panics when the session cannot be made *)
    if sessionFails w then Panics
    else Returns (s3GetObject w bucket key).

Definition FileLoader_GetReader (w : World) (filename : string)
    : Go ReaderOrError :=
  Returns (osOpen w filename).

(** A method call through the interface: on the nil interface it panics. *)
Definition TypeLoader_GetReader (w : World) (rg : TypeLoader)
    (filename : string) : Go ReaderOrError :=
  match rg with
  | None => Panics
  | Some S3Loader => S3Loader_GetReader w filename
  | Some FileLoader => FileLoader_GetReader w filename
  | Some (OtherLoader get) => get filename
  end.

(** ** Loader

    [types] is a Go map keyed by pointers to compiled patterns: a finite map
    from addresses, each entry holding the pattern its key points to and the
    loader bound to it. *)
Record Loader : Type := {
  types : gmap positive (Regexp * TypeLoader);
  fallback : TypeLoader
}.

(** A map literal, or a run of assignments [m[re] = loader]: the entries are
    stored one after the other. *)
Definition mapLiteral (entries : list (positive * (Regexp * TypeLoader)))
    : gmap positive (Regexp * TypeLoader) :=
  foldl (fun m e => <[e.1 := e.2]> m) ∅ entries.

(** [for re, getter := range l.types] visits every entry once, in an order
    the language leaves unspecified and that may change from one loop to the
    next: a run of the loop is given by the order [ord] it visits in. *)
Definition IterationOrder (l : Loader)
    (ord : list (positive * (Regexp * TypeLoader))) : Prop :=
  ord ≡ₚ map_to_list (types l).

Fixpoint rangeLoop (ord : list (positive * (Regexp * TypeLoader)))
    (filename : string) (afterLoop : TypeLoader) : TypeLoader :=
  match ord with
  | [] => afterLoop
  | (_, (re, getter)) :: rest =>
      if MatchString re filename then getter
      else rangeLoop rest filename afterLoop
  end.

Definition getReaderGetter (l : Loader)
    (ord : list (positive * (Regexp * TypeLoader))) (filename : string)
    : TypeLoader :=
  rangeLoop ord filename (fallback l).

Definition GetReader (w : World) (l : Loader)
    (ord : list (positive * (Regexp * TypeLoader))) (filename : string)
    : Go ReaderOrError :=
  let rg := getReaderGetter l ord filename in
  match rg with
  | None => Returns (inr ErrorNoReader)
  | Some _ => TypeLoader_GetReader w rg filename
  end.

(** An [io.ReadCloser] made by [GetReadCloser]: the reader itself, or the
    reader wrapped by [ioutil.NopCloser]. *)
Inductive ReadCloser : Type :=
| Itself (r : Reader)
| NopCloser (r : Reader).

Definition underlying (rc : ReadCloser) : Reader :=
  match rc with
  | Itself r | NopCloser r => r
  end.

(** [rc.Close()]: the wrapper's [Close] does nothing and returns nil. *)
Definition ReadCloser_Close (rc : ReadCloser) (st : Stream)
    : Stream * option error :=
  match rc with
  | Itself r => match asCloser r with
                | Some close => close st
                | None => (st, None)
                end
  | NopCloser _ => (st, None)
  end.

Definition GetReadCloser (w : World) (l : Loader)
    (ord : list (positive * (Regexp * TypeLoader))) (filename : string)
    : Go (ReadCloser + error) :=
  match GetReader w l ord filename with
  | Panics => Panics
  | Returns (inr err) => Returns (inr err)
  | Returns (inl r) =>
      match asCloser r with
      | Some _ => Returns (inl (Itself r))
      | None => Returns (inl (NopCloser r))
      end
  end.

(** ** Load *)

Inductive Format : Type := JSON | XML | YAML.

(** [fileDotParts[len(fileDotParts)-1]]: indexing outside the slice
    panics. *)
Definition fileExtension (filename : string) : option string :=
  let fileDotParts := Strings.Split filename "." in
  nth_error fileDotParts (length fileDotParts - 1).

(** The [switch] on the lower-cased extension; the statement after the
    switch is the JSON decoder again. *)
Definition formatOfTag (tag : string) : Format :=
  if String.eqb tag "json" then JSON
  else if String.eqb tag "xml" then XML
  else if (String.eqb tag "yml" || String.eqb tag "yaml")%bool then YAML
  else JSON.

Definition selectFormat (filename : string) : option Format :=
  match fileExtension filename with
  | Some ext => Some (formatOfTag (Strings.ToLower ext))
  | None => None
  end.

(** What a call of [Load] leaves behind: its result, the target, and the
    state of the stream it acquired, if it acquired one. *)
Record Loaded (T : Type) : Type := {
  result : Go (option error);
  target : T;
  acquired : option (Reader * Stream)
}.
Arguments result {T} _.
Arguments target {T} _.
Arguments acquired {T} _.

Definition decodeAs (w : World) (fmt : Format) (reader : Reader)
    (st : Stream) (into : Target w) : Stream * Target w * option error :=
  match fmt with
  | JSON => Decode (jsonDecoder w) reader st into
  | XML => Decode (xmlDecoder w) reader st into
  | YAML =>
      let '(b, err, st') := ReadAll reader st in
      match err with
      | Some e => (st', into, Some e)
      | None => let (t, e) := yamlUnmarshal w b into in (st', t, e)
      end
  end.

Definition Load (w : World) (l : Loader)
    (ord : list (positive * (Regexp * TypeLoader))) (filename : string)
    (into : Target w) : Loaded (Target w) :=
  match GetReader w l ord filename with
  | Panics => {| result := Panics; target := into; acquired := None |}
  | Returns (inr err) =>
      {| result := Returns (Some err); target := into; acquired := None |}
  | Returns (inl reader) =>
      let deferred := asCloser reader in
      let '(res, t, st) :=
        match selectFormat filename with
        | None => (Panics, into, open reader)
        | Some fmt =>
            let '(st, t, e) := decodeAs w fmt reader (open reader) into in
            (Returns e, t, st)
        end in
      (* the deferred call runs as Load returns; its result is dropped *)
      let st' := match deferred with
                 | Some close => fst (close st)
                 | None => st
                 end in
      {| result := res; target := t; acquired := Some (reader, st') |}
  end.

(** [DefaultLoader]; [reS3Filename] is its only key. *)
Definition DefaultLoader : Loader :=
  {| types := mapLiteral [(1%positive, (reS3Filename, Some S3Loader))];
     fallback := Some FileLoader |}.

(** The functions of the package itself, which go through [DefaultLoader];
    each call ranges over the map on its own. *)
Module Package.

Definition Load (w : World) (ord : list (positive * (Regexp * TypeLoader)))
    (filename : string) (into : Target w) : Loaded (Target w) :=
  Load w DefaultLoader ord filename into.

Definition GetReader (w : World)
    (ord : list (positive * (Regexp * TypeLoader))) (filename : string)
    : Go ReaderOrError :=
  GetReader w DefaultLoader ord filename.

Definition GetReadCloser (w : World)
    (ord : list (positive * (Regexp * TypeLoader))) (filename : string)
    : Go (ReadCloser + error) :=
  GetReadCloser w DefaultLoader ord filename.

End Package.

(** ** Fixtures: small registries, readers and a world to run the model on *)

Module Fixtures.

(** The pattern [.*], which matches every identifier. *)
Definition reAny : Regexp := RStar RAnyNotNL.

(** The pattern "^cfg", which matches identifiers that start with "cfg". *)
Definition reCfg : Regexp := RCat RBegin (lits "cfg" (RStar RAnyNotNL)).

Definition plain (chunks : list string) : Reader :=
  {| content := map Strings.bytes chunks; readErr := None; closer := None |}.

Definition closing (chunks : list string) (res : option error) : Reader :=
  {| content := map Strings.bytes chunks; readErr := None;
     closer := Some res |}.

Definition failing (chunks : list string) (e : error) : Reader :=
  {| content := map Strings.bytes chunks; readErr := Some e;
     closer := Some None |}.

Definition serve (r : Reader) : Provider :=
  OtherLoader (fun _ => Returns (inl r)).

Definition providerA : Provider := serve (plain ["{}"]).
Definition providerB : Provider := serve (closing ["<a/>"] None).

Definition bindingA : positive * (Regexp * TypeLoader) :=
  (1%positive, (reAny, Some providerA)).
Definition bindingB : positive * (Regexp * TypeLoader) :=
  (2%positive, (reCfg, Some providerB)).

(** Two patterns that both match "cfg.json", A registered before B. *)
Definition overlapping : Loader :=
  {| types := mapLiteral [bindingA; bindingB]; fallback := Some FileLoader |}.

Definition emptyLoader : Loader := {| types := ∅; fallback := None |}.

Definition syntaxError : error := ErrorFrom 1.
Definition unexpectedEOF : error := ErrorFrom 2.
Definition closeError : error := ErrorFrom 3.
Definition notFound : error := ErrorFrom 4.

(** A decoder for values written between an opening and a closing byte
    with nothing nested, the way the JSON decoder treats "{}": input that
    starts with another byte is rejected at once, and reading stops at the
    closing byte. The target is set to the text of the value. *)
Definition bracketed (opening closing : ascii) : StreamDecoder string :=
  {| scan := fun buf into =>
       match buf with
       | [] => NeedMore
       | c :: _ =>
           if Ascii.eqb c opening then
             if existsb (Ascii.eqb closing) buf
             then Done (string_of_list_ascii buf) None
             else NeedMore
           else Done into (Some syntaxError)
       end;
     finish := fun _ into => (into, Some unexpectedEOF) |}.

Definition testWorld (fs : string -> ReaderOrError) : World :=
  {| Target := string;
     sessionFails := false;
     s3GetObject := fun _ _ => inr notFound;
     osOpen := fs;
     jsonDecoder := bracketed "{" "}";
     xmlDecoder := bracketed "<" ">";
     yamlUnmarshal := fun b _ => (string_of_list_ascii b, None) |}.

Definition noFiles : string -> ReaderOrError := fun _ => inr notFound.

(** A loader with no pattern whose fallback serves the reader [r]. *)
Definition serving (r : Reader) : Loader :=
  {| types := ∅; fallback := Some (serve r) |}.

End Fixtures.

Import Fixtures.

(** A world in which the AWS session cannot be made, and a file system
    holding one file. *)
Module MoreFixtures.

Definition noSession (fs : string -> ReaderOrError) : World :=
  {| Target := string;
     sessionFails := true;
     s3GetObject := fun _ _ => inr notFound;
     osOpen := fs;
     jsonDecoder := bracketed "{" "}";
     xmlDecoder := bracketed "<" ">";
     yamlUnmarshal := fun b _ => (string_of_list_ascii b, None) |}.

Definition oneFile (name : string) (r : Reader) : string -> ReaderOrError :=
  fun filename => if String.eqb filename name then inl r else inr notFound.

(** A pattern bound to the nil loader, beside a fallback. *)
Definition nilBound : Loader :=
  {| types := mapLiteral [(1%positive, (reCfg, None))];
     fallback := Some FileLoader |}.

(** One pattern, "^cfg", bound to loader B, beside the fallback [fb]. *)
Definition cfgOnly (fb : TypeLoader) : Loader :=
  {| types := mapLiteral [bindingB]; fallback := fb |}.

End MoreFixtures.

Import MoreFixtures.

(** ** Vocabulary of the properties *)

(** A binding of the registry whose pattern matches the identifier. *)
Definition Matching (l : Loader) (filename : string) (k : positive)
    (re : Regexp) (rg : TypeLoader) : Prop :=
  types l !! k = Some (re, rg) ∧ MatchString re filename = true.

(** Precedence by registration: whatever order the loop visits in, the
    loader found for [filename] in the registry built from the registrations
    [regs] is the one of the first registration whose pattern matches. *)
Definition FirstRegisteredWins
    (regs : list (positive * (Regexp * TypeLoader))) (fb : TypeLoader)
    (filename : string) : Prop :=
  ∀ ord, IterationOrder {| types := mapLiteral regs; fallback := fb |} ord →
         getReaderGetter {| types := mapLiteral regs; fallback := fb |}
           ord filename
         = rangeLoop regs filename fb.

(** Two runs of the resolution on the same registry and identifier find the
    same loader. *)
Definition Deterministic (l : Loader) (filename : string) : Prop :=
  ∀ ord1 ord2, IterationOrder l ord1 → IterationOrder l ord2 →
               getReaderGetter l ord1 filename
               = getReaderGetter l ord2 filename.

(** An identifier made of "s3://", a bucket that is not empty and holds no
    slash, a slash, and a key, whatever the key holds. *)
Definition S3Named (filename : string) : Prop :=
  ∃ bucket key, filename = "s3://" +:+ bucket +:+ "/" +:+ key
                ∧ bucket ≠ EmptyString
                ∧ ("/"%char ∉ Strings.bytes bucket).

(** The default registry finds [S3Loader] for the identifier. *)
Definition RoutedToS3 (filename : string) : Prop :=
  ∀ ord, IterationOrder DefaultLoader ord →
         getReaderGetter DefaultLoader ord filename = Some S3Loader.

(** An identifier of the shape s3://bucket/key: a bucket that is not empty
    and holds no slash, and a key on one line. *)
Definition S3Shaped (filename bucket key : string) : Prop :=
  filename = "s3://" +:+ bucket +:+ "/" +:+ key
  ∧ bucket ≠ EmptyString
  ∧ ("/"%char ∉ Strings.bytes bucket)
  ∧ (newline ∉ Strings.bytes key).

(** What the caller of [Load] can tell a reported release failure by: the
    outcome for a reader whose [Close] fails with [e] differs from the outcome
    for the same reader with a [Close] that succeeds. The package has no other
    outlet: it writes no log. *)
Definition ReleaseFailureReported (w : World) (filename : string)
    (into : Target w) (chunks : list (list ascii)) (rerr : option error)
    (e : error) : Prop :=
  let failed := {| content := chunks; readErr := rerr;
                   closer := Some (Some e) |} in
  let clean := {| content := chunks; readErr := rerr;
                  closer := Some None |} in
  let out (r : Reader) :=
    Load w {| types := ∅; fallback := Some (OtherLoader (fun _ =>
                                              Returns (inl r))) |}
      [] filename into in
  (result (out failed), target (out failed))
  ≠ (result (out clean), target (out clean)).

(** Nothing of the acquired stream is left unread when [Load] returns. *)
Definition WholeStreamConsumed {T : Type} (out : Loaded T) : Prop :=
  ∀ r st, acquired out = Some (r, st) → unread st = [].

(** The bytes accepted by the character class of group 1 and by the dot. *)
Definition notSlash (c : ascii) : bool := negb (inClass c ["/"%char]).
Definition notNewline (c : ascii) : bool := negb (Ascii.eqb c newline).

(** * Properties *)

(** Two loaders made by [OtherLoader] from functions that disagree on the
    empty identifier are different loaders. *)
Ltac loaders_differ H :=
  vm_compute in H; injection H as H;
  apply (f_equal (fun get => get EmptyString)) in H; discriminate H.

(** A closed decidable statement, settled by evaluation. *)
Ltac by_evaluation := apply (bool_decide_unpack _); vm_compute; exact I.

(** ** The range loop *)

Section RangeLoop.

Implicit Types (ord : list (positive * (Regexp * TypeLoader))).
Implicit Types (l : Loader) (filename : string) (rg : TypeLoader).

Lemma IterationOrder_elem l ord k re rg :
  IterationOrder l ord →
  (k, (re, rg)) ∈ ord ↔ types l !! k = Some (re, rg).
Proof.
  intros Hord. unfold IterationOrder in Hord.
  rewrite Hord. apply elem_of_map_to_list.
Qed.

Lemma rangeLoop_none ord filename rg :
  (∀ k re g, (k, (re, g)) ∈ ord → MatchString re filename = false) →
  rangeLoop ord filename rg = rg.
Proof.
  induction ord as [|[k [re g]] ord IH]; intros Hno; simpl; [done|].
  rewrite (Hno k re g) by left.
  apply IH. intros k' re' g' Hin. apply (Hno k' re' g'). by right.
Qed.

Lemma rangeLoop_some ord filename rg k re g :
  (k, (re, g)) ∈ ord → MatchString re filename = true →
  ∃ k' re' g', (k', (re', g')) ∈ ord ∧ MatchString re' filename = true
               ∧ rangeLoop ord filename rg = g'.
Proof.
  induction ord as [|[k0 [re0 g0]] ord IH]; intros Hin Hm.
  - by apply elem_of_nil in Hin.
  - simpl. destruct (MatchString re0 filename) eqn:Hm0.
    + exists k0, re0, g0. split; [left|done].
    + apply elem_of_cons in Hin as [Heq|Hin]; [congruence|].
      destruct (IH Hin Hm) as (k' & re' & g' & Hin' & Hm' & Hres).
      exists k', re', g'. split; [by right|done].
Qed.

(** Every binding can come first in the iteration. *)
Lemma IterationOrder_first l k re rg :
  types l !! k = Some (re, rg) →
  ∃ rest, IterationOrder l ((k, (re, rg)) :: rest).
Proof.
  intros Hk. apply elem_of_map_to_list in Hk.
  apply elem_of_Permutation in Hk as [rest Hp].
  exists rest. unfold IterationOrder. by symmetry.
Qed.

Lemma getReaderGetter_no_match l ord filename :
  IterationOrder l ord →
  (∀ k re rg, types l !! k = Some (re, rg) →
              MatchString re filename = false) →
  getReaderGetter l ord filename = fallback l.
Proof.
  intros Hord Hno. apply rangeLoop_none. intros k re g Hin.
  apply (Hno k re g). by apply (IterationOrder_elem l ord).
Qed.

Lemma getReaderGetter_match l ord filename k re rg :
  IterationOrder l ord → Matching l filename k re rg →
  ∃ k' re' rg', Matching l filename k' re' rg'
                ∧ getReaderGetter l ord filename = rg'.
Proof.
  intros Hord [Hk Hm].
  apply (IterationOrder_elem l ord) in Hk; [|done].
  destruct (rangeLoop_some ord filename (fallback l) k re rg Hk Hm)
    as (k' & re' & g' & Hin & Hm' & Hres).
  exists k', re', g'. split; [split|]; [|done..].
  by apply (IterationOrder_elem l ord).
Qed.

Lemma mapLiteral_app (es1 es2 : list (positive * (Regexp * TypeLoader))) :
  mapLiteral (es1 ++ es2)
  = foldl (fun m e => <[e.1 := e.2]> m) (mapLiteral es1) es2.
Proof. unfold mapLiteral. by rewrite foldl_app. Qed.

Lemma mapLiteral_swap (pre post : list (positive * (Regexp * TypeLoader)))
    (a b : positive * (Regexp * TypeLoader)) :
  a.1 ≠ b.1 →
  mapLiteral (pre ++ a :: b :: post) = mapLiteral (pre ++ b :: a :: post).
Proof.
  intros Hne. rewrite !mapLiteral_app. simpl.
  f_equal. by apply insert_insert_ne.
Qed.

End RangeLoop.

(** ** Resolution *)

Lemma IterationOrder_overlapping_BA :
  IterationOrder overlapping [bindingB; bindingA].
Proof. unfold IterationOrder. vm_compute. reflexivity. Qed.

Lemma IterationOrder_overlapping_AB :
  IterationOrder overlapping [bindingA; bindingB].
Proof. unfold IterationOrder. vm_compute. apply perm_swap. Qed.

(** C1, as stated, fails: with A registered before B and both patterns
    matching "cfg.json", the loop may visit B first and return B's loader. *)
Lemma first_registered_may_lose :
  ¬ FirstRegisteredWins [bindingA; bindingB] (Some FileLoader) "cfg.json".
Proof.
  intros Hclaim.
  specialize (Hclaim [bindingB; bindingA] IterationOrder_overlapping_BA).
  loaders_differ Hclaim.
Qed.

(** C1, amended: when some registered pattern matches the identifier, the
    loader found is the one of a binding whose pattern matches; every
    matching binding is found under some iteration order; and the registry
    keeps no trace of the registration order, so that swapping two
    registrations leaves it unchanged. *)
Theorem resolution_selects_some_match (l : Loader)
    (ord : list (positive * (Regexp * TypeLoader))) (filename : string)
    (k : positive) (re : Regexp) (rg : TypeLoader) :
  IterationOrder l ord →
  Matching l filename k re rg →
  (∃ k' re' rg', Matching l filename k' re' rg'
                 ∧ getReaderGetter l ord filename = rg')
  ∧ (∃ ord', IterationOrder l ord' ∧ getReaderGetter l ord' filename = rg)
  ∧ (∀ pre a b post, a.1 ≠ b.1 →
       types l = mapLiteral (pre ++ a :: b :: post) →
       types l = mapLiteral (pre ++ b :: a :: post)).
Proof.
  intros Hord Hm. split; [|split].
  - by apply (getReaderGetter_match l ord filename k re rg).
  - destruct Hm as [Hk Hre].
    destruct (IterationOrder_first l k re rg Hk) as [rest Hrest].
    exists ((k, (re, rg)) :: rest). split; [done|].
    unfold getReaderGetter. simpl. by rewrite Hre.
  - intros pre a b post Hne ->. by apply mapLiteral_swap.
Qed.

Lemma resolution_selects_some_match_witness :
  (∃ k' re' rg', Matching overlapping "cfg.json" k' re' rg'
     ∧ getReaderGetter overlapping [bindingB; bindingA] "cfg.json" = rg')
  ∧ (∃ ord', IterationOrder overlapping ord'
             ∧ getReaderGetter overlapping ord' "cfg.json" = Some providerA)
  ∧ (∀ pre a b post, a.1 ≠ b.1 →
       types overlapping = mapLiteral (pre ++ a :: b :: post) →
       types overlapping = mapLiteral (pre ++ b :: a :: post)).
Proof.
  apply (resolution_selects_some_match overlapping [bindingB; bindingA]
           "cfg.json" 1%positive reAny (Some providerA)).
  - exact IterationOrder_overlapping_BA.
  - split; reflexivity.
Defined.

(** C2, as stated, fails: on the same registry and identifier two runs of
    the loop can return different loaders. *)
Lemma resolution_not_deterministic : ¬ Deterministic overlapping "cfg.json".
Proof.
  intros Hclaim.
  specialize (Hclaim [bindingA; bindingB] [bindingB; bindingA]
                IterationOrder_overlapping_AB IterationOrder_overlapping_BA).
  loaders_differ Hclaim.
Qed.

(** C2, amended: resolution is a function of the registry and the identifier
    whenever all bindings whose pattern matches the identifier hold the same
    loader, in particular when at most one pattern matches; then every run
    of [GetReader] calls the same loader. *)
Theorem resolution_deterministic_without_overlap (w : World) (l : Loader)
    (filename : string) :
  (∀ k1 re1 rg1 k2 re2 rg2,
     Matching l filename k1 re1 rg1 → Matching l filename k2 re2 rg2 →
     rg1 = rg2) →
  Deterministic l filename
  ∧ ∀ ord1 ord2, IterationOrder l ord1 → IterationOrder l ord2 →
                 GetReader w l ord1 filename = GetReader w l ord2 filename.
Proof.
  intros Hsame.
  assert (Hdet : Deterministic l filename).
  { intros ord1 ord2 H1 H2.
    destruct (decide (Exists (λ e, MatchString e.2.1 filename = true)
                        (map_to_list (types l)))) as [Hex|Hnone].
    - apply Exists_exists in Hex as [[k [re rg]] [Hin Hm]].
      apply elem_of_map_to_list in Hin. simpl in Hm.
      destruct (getReaderGetter_match l ord1 filename k re rg H1)
        as (k1 & re1 & rg1 & Hm1 & ->); [done|].
      destruct (getReaderGetter_match l ord2 filename k re rg H2)
        as (k2 & re2 & rg2 & Hm2 & ->); [done|].
      by apply (Hsame k1 re1 rg1 k2 re2 rg2).
    - assert (Hno : ∀ k re rg, types l !! k = Some (re, rg) →
                               MatchString re filename = false).
      { intros k re rg Hk. destruct (MatchString re filename) eqn:Hm; [|done].
        exfalso. apply Hnone. apply Exists_exists. exists (k, (re, rg)).
        split; [by apply elem_of_map_to_list|done]. }
      by rewrite !getReaderGetter_no_match. }
  split; [done|].
  intros ord1 ord2 H1 H2. unfold GetReader.
  by rewrite (Hdet ord1 ord2 H1 H2).
Qed.

Lemma resolution_deterministic_without_overlap_witness :
  Deterministic DefaultLoader "s3://bucket1/key1"
  ∧ ∀ ord1 ord2, IterationOrder DefaultLoader ord1 →
                 IterationOrder DefaultLoader ord2 →
                 GetReader (testWorld noFiles) DefaultLoader ord1
                   "s3://bucket1/key1"
                 = GetReader (testWorld noFiles) DefaultLoader ord2
                     "s3://bucket1/key1".
Proof.
  apply (resolution_deterministic_without_overlap (testWorld noFiles)
           DefaultLoader "s3://bucket1/key1").
  intros k1 re1 rg1 k2 re2 rg2 [H1 _] [H2 _].
  unfold DefaultLoader, mapLiteral in H1, H2. simpl in H1, H2.
  apply lookup_insert_Some in H1 as [[_ H1]|[_ H1]];
    apply lookup_insert_Some in H2 as [[_ H2]|[_ H2]];
    rewrite ?lookup_empty in *; congruence.
Defined.

(** ** The pattern of the default registry *)

Section S3Pattern.

Import Strings.
Local Close Scope string_scope.

Lemma bytes_app (a b : string) : bytes (a +:+ b) = (bytes a ++ bytes b).
Proof. induction a as [|c a IH]; simpl; [done|]. by rewrite <- IH. Qed.

Lemma run_lits (s : string) (rest : Regexp) (pos : nat) (t : list ascii)
    (caps : Caps) (k : Cont) :
  run (lits s rest) pos (bytes s ++ t) caps k
  = run rest (pos + length (bytes s)) t caps k.
Proof.
  revert pos. induction s as [|c s IH]; intros pos; simpl.
  - by rewrite Nat.add_0_r.
  - rewrite Ascii.eqb_refl. unfold bytes in *. rewrite IH. f_equal. lia.
Qed.

(** The loop of a one-byte body [m] accepting the bytes [p]: it runs over
    a stretch of accepted bytes that ends the text or is followed by a
    byte that is not accepted. *)
Lemma starLoop_class (m : nat → list ascii → Caps → Cont → option Caps)
    (p : ascii → bool) :
  (∀ pos c s caps K,
     m pos (c :: s) caps K = if p c then K (S pos) s caps else None) →
  (∀ pos caps K, m pos [] caps K = None) →
  ∀ (b t : list ascii) (n pos : nat) (caps res : Caps) (k : Cont),
    Forall (λ c, p c = true) b →
    match t with [] => True | c :: _ => p c = false end →
    length b ≤ n →
    k (pos + length b) t caps = Some res →
    starLoop m k n pos (b ++ t) caps = Some res.
Proof.
  intros Hcons Hnil b. induction b as [|c b IH];
    intros t n pos caps res k Hb Ht Hn Hk; simpl in *.
  - rewrite Nat.add_0_r in Hk.
    destruct n as [|n]; simpl; [done|].
    destruct t as [|c t].
    + by rewrite Hnil.
    + by rewrite Hcons, Ht.
  - destruct n as [|n]; [lia|]. simpl.
    apply Forall_cons in Hb as [Hc Hb].
    rewrite Hcons, Hc.
    assert (Hlt : (length (b ++ t) <? S (length (b ++ t)))%nat = true)
      by (apply Nat.ltb_lt; lia).
    rewrite Hlt.
    rewrite (IH t n (S pos) caps res k); [done..| lia |].
    by replace (S pos + length b) with (pos + S (length b)) by lia.
Qed.

Lemma run_RNotIn_cons (cs : list ascii) pos c s caps (K : Cont) :
  run (RNotIn cs) pos (c :: s) caps K
  = if negb (inClass c cs) then K (S pos) s caps else None.
Proof. simpl. by destruct (inClass c cs). Qed.

Lemma run_RAnyNotNL_cons pos c s caps (K : Cont) :
  run RAnyNotNL pos (c :: s) caps K
  = if notNewline c then K (S pos) s caps else None.
Proof. unfold notNewline. simpl. by destruct (Ascii.eqb c newline). Qed.

(** The spans found on an identifier made of "s3://", a bucket and a
    key. *)
Lemma matchAt_reS3Filename (bucket key : list ascii) :
  bucket ≠ [] →
  Forall (λ c, notSlash c = true) bucket →
  Forall (λ c, notNewline c = true) key →
  matchAt reS3Filename 0 (bytes "s3://"%string ++ bucket ++ "/"%char :: key)
  = Some [(0, (0, 6 + length bucket + length key));
          (2, (6 + length bucket, 6 + length bucket + length key));
          (1, (5, 5 + length bucket))].
Proof.
  intros Hne Hb Hk. unfold matchAt, reS3Filename.
  change (run (RCat RBegin ?x) 0 ?s ?c ?k) with (run x 0 s c k).
  rewrite run_lits.
  destruct bucket as [|b0 bucket]; [done|].
  apply Forall_cons in Hb as [Hb0 Hb].
  change (0 + length (bytes "s3://"%string)) with 5.
  cbn [run app]. unfold notSlash in Hb0.
  apply negb_true_iff in Hb0. rewrite Hb0.
  eapply (starLoop_class (run (RNotIn ["/"%char])) notSlash).
  - intros. apply run_RNotIn_cons.
  - done.
  - exact Hb.
  - reflexivity.
  - rewrite length_app. lia.
  - cbn [run]. rewrite Ascii.eqb_refl.
    rewrite <- (app_nil_r key) at 2.
    eapply (starLoop_class (run RAnyNotNL) notNewline).
    + intros. apply run_RAnyNotNL_cons.
    + done.
    + exact Hk.
    + done.
    + done.
    + cbn [run length]. do 4 f_equal; repeat f_equal; lia.
Qed.

Lemma search_matchAt (r : Regexp) (pos : nat) (s : list ascii) (c : Caps) :
  matchAt r pos s = Some c → search r pos s = Some c.
Proof. intros H. destruct s; simpl; by rewrite H. Qed.

Lemma Forall_notSlash (b : list ascii) :
  "/"%char ∉ b → Forall (λ c, notSlash c = true) b.
Proof.
  intros Hb. apply Forall_forall. intros c Hc.
  unfold notSlash, inClass. simpl. rewrite orb_false_r.
  apply negb_true_iff, Ascii.eqb_neq. intros ->. by apply Hb.
Qed.

Lemma Forall_notNewline (b : list ascii) :
  newline ∉ b → Forall (λ c, notNewline c = true) b.
Proof.
  intros Hb. apply Forall_forall. intros c Hc. unfold notNewline.
  apply negb_true_iff, Ascii.eqb_neq. intros ->. by apply Hb.
Qed.

Lemma search_S3Shaped (filename bucket key : string) :
  S3Shaped filename bucket key →
  bytes filename
  = bytes "s3://"%string ++ bytes bucket ++ "/"%char :: bytes key
  ∧ search reS3Filename 0 (bytes filename)
    = Some [(0, (0, 6 + length (bytes bucket) + length (bytes key)));
            (2, (6 + length (bytes bucket),
                 6 + length (bytes bucket) + length (bytes key)));
            (1, (5, 5 + length (bytes bucket)))].
Proof.
  intros (-> & Hne & Hb & Hk).
  assert (Htext : bytes ("s3://" +:+ bucket +:+ "/" +:+ key)
                  = bytes "s3://"%string ++ bytes bucket
                      ++ "/"%char :: bytes key).
  { by rewrite !bytes_app. }
  split; [done|]. rewrite Htext.
  apply search_matchAt, matchAt_reS3Filename.
  - destruct bucket; [done|]. discriminate.
  - by apply Forall_notSlash.
  - by apply Forall_notNewline.
Qed.

Lemma MatchString_S3Shaped (filename bucket key : string) :
  S3Shaped filename bucket key → MatchString reS3Filename filename = true.
Proof.
  intros H. unfold MatchString.
  destruct (search_S3Shaped _ _ _ H) as [_ Hs]. by rewrite Hs.
Qed.

Lemma string_of_bytes (s : string) : string_of_list_ascii (bytes s) = s.
Proof. apply string_of_list_ascii_of_string. Qed.

Lemma slice_app (pre mid post : list ascii) (sp : nat * nat) :
  sp = (length pre, length pre + length mid) →
  slice (pre ++ mid ++ post) sp = string_of_list_ascii mid.
Proof.
  intros ->. unfold slice. cbn [fst snd].
  replace (length pre + length mid - length pre) with (length mid) by lia.
  by rewrite drop_app_length, take_app_length.
Qed.

(** The submatches are the identifier, the bucket and the key. *)
Lemma FindStringSubmatch_S3Shaped (filename bucket key : string) :
  S3Shaped filename bucket key →
  FindStringSubmatch reS3Filename filename = Some [filename; bucket; key].
Proof.
  intros H. unfold FindStringSubmatch.
  destruct (search_S3Shaped _ _ _ H) as [Htext Hs].
  rewrite Hs. cbn [NumSubexp reS3Filename lits Nat.max seq map capLookup
                     Nat.eqb].
  f_equal. f_equal; [|f_equal; [|f_equal]].
  - rewrite <- (string_of_bytes filename) at 2.
    rewrite <- (app_nil_r (bytes filename)) at 1.
    apply (slice_app [] (bytes filename) []).
    rewrite Htext, !length_app. simpl. f_equal. lia.
  - rewrite <- (string_of_bytes bucket) at 2. rewrite Htext.
    by apply slice_app.
  - rewrite <- (string_of_bytes key) at 2. rewrite Htext.
    replace (bytes "s3://"%string ++ bytes bucket ++ "/"%char :: bytes key)
      with ((bytes "s3://"%string ++ bytes bucket ++ ["/"%char])
              ++ bytes key ++ []).
    + apply slice_app. rewrite !length_app. simpl. f_equal; lia.
    + rewrite app_nil_r, <- !app_assoc. done.
Qed.

End S3Pattern.

(** ** Fallback and bound loaders *)

Lemma IterationOrder_DefaultLoader
    (ord : list (positive * (Regexp * TypeLoader))) :
  IterationOrder DefaultLoader ord →
  ord = [(1%positive, (reS3Filename, Some S3Loader))].
Proof.
  unfold IterationOrder, DefaultLoader, mapLiteral. simpl.
  rewrite insert_empty, map_to_list_singleton.
  apply Permutation_singleton_r.
Qed.

Lemma S3Loader_GetReader_S3Shaped (w : World) (filename bucket key : string) :
  S3Shaped filename bucket key →
  S3Loader_GetReader w filename
  = if sessionFails w then Panics else Returns (s3GetObject w bucket key).
Proof.
  intros H. unfold S3Loader_GetReader.
  by rewrite (FindStringSubmatch_S3Shaped _ _ _ H).
Qed.

Lemma cfgOnly_no_match (fb : TypeLoader) :
  IterationOrder (cfgOnly fb) [bindingB]
  ∧ ∀ k re rg, types (cfgOnly fb) !! k = Some (re, rg) →
               MatchString re "data.json" = false.
Proof.
  split; [unfold IterationOrder; vm_compute; reflexivity|].
  intros k re rg Hk. unfold cfgOnly, mapLiteral in Hk. simpl in Hk.
  apply lookup_insert_Some in Hk as [[_ Hk]|[_ Hk]].
  - injection Hk as <- _. reflexivity.
  - by rewrite lookup_empty in Hk.
Qed.

(** C6: when no registered pattern matches the identifier, the loader found
    is the fallback. If the fallback is nil, [GetReader] returns
    [ErrorNoReader] and calls nothing; otherwise it returns what the
    fallback's own [GetReader] returns for the identifier as given: what
    [os.Open] returns for it if the fallback is [FileLoader], what
    [S3Loader]'s [GetReader] returns for it if it is [S3Loader], and what
    the loader's function returns for it otherwise. *)
Theorem no_match_goes_to_fallback (w : World) (l : Loader)
    (ord : list (positive * (Regexp * TypeLoader))) (filename : string) :
  IterationOrder l ord →
  (∀ k re rg, types l !! k = Some (re, rg) →
              MatchString re filename = false) →
  getReaderGetter l ord filename = fallback l
  ∧ GetReader w l ord filename
    = match fallback l with
      | None => Returns (inr ErrorNoReader)
      | Some FileLoader => Returns (osOpen w filename)
      | Some S3Loader => S3Loader_GetReader w filename
      | Some (OtherLoader get) => get filename
      end.
Proof.
  intros Hord Hno.
  pose proof (getReaderGetter_no_match l ord filename Hord Hno) as Hrg.
  split; [done|]. unfold GetReader. rewrite Hrg.
  by destruct (fallback l) as [[| |get]|].
Qed.

Lemma no_match_goes_to_fallback_witness :
  (getReaderGetter (cfgOnly (Some FileLoader)) [bindingB] "data.json"
   = Some FileLoader
   ∧ GetReader (testWorld (oneFile "data.json" (plain ["{}"])))
       (cfgOnly (Some FileLoader)) [bindingB] "data.json"
     = Returns (inl (plain ["{}"])))
  ∧ (getReaderGetter (cfgOnly None) [bindingB] "data.json" = None
     ∧ GetReader (testWorld (oneFile "data.json" (plain ["{}"])))
         (cfgOnly None) [bindingB] "data.json"
       = Returns (inr ErrorNoReader))
  ∧ (getReaderGetter (cfgOnly (Some providerA)) [bindingB] "data.json"
     = Some providerA
     ∧ GetReader (testWorld noFiles) (cfgOnly (Some providerA)) [bindingB]
         "data.json"
       = Returns (inl (plain ["{}"]))).
Proof.
  split; [|split].
  - apply (no_match_goes_to_fallback
             (testWorld (oneFile "data.json" (plain ["{}"])))
             (cfgOnly (Some FileLoader)) [bindingB] "data.json");
      apply cfgOnly_no_match.
  - apply (no_match_goes_to_fallback
             (testWorld (oneFile "data.json" (plain ["{}"])))
             (cfgOnly None) [bindingB] "data.json");
      apply cfgOnly_no_match.
  - apply (no_match_goes_to_fallback (testWorld noFiles)
             (cfgOnly (Some providerA)) [bindingB] "data.json");
      apply cfgOnly_no_match.
Defined.

(** ** The extension and the format *)

Section Extension.

Import Strings.

Lemma Split_nonempty (s : string) (sep : ascii) : Split s sep ≠ [].
Proof.
  induction s as [|c s IH]; simpl; [done|].
  destruct (Ascii.eqb c sep); [done|]. by destruct (Split s sep).
Qed.

Lemma Split_no_sep (e : string) (sep : ascii) :
  sep ∉ bytes e → Split e sep = [e].
Proof.
  induction e as [|c e IH]; intros Hno; simpl; [done|].
  simpl in Hno. apply not_elem_of_cons in Hno as [Hc He].
  destruct (Ascii.eqb c sep) eqn:Heq.
  - apply Ascii.eqb_eq in Heq. congruence.
  - by rewrite (IH He).
Qed.

Lemma Split_app (p e : string) (sep : ascii) :
  Split (p +:+ String sep e) sep = Split p sep ++ Split e sep.
Proof.
  induction p as [|c p IH]; simpl.
  - by rewrite Ascii.eqb_refl.
  - destruct (Ascii.eqb c sep); [by rewrite IH|].
    rewrite IH. pose proof (Split_nonempty p sep).
    by destruct (Split p sep).
Qed.

(** The extension of an identifier with a dot is what follows its last
    dot. *)
Lemma fileExtension_after_last_dot (p e : string) :
  "."%char ∉ bytes e → fileExtension (p +:+ "." +:+ e) = Some e.
Proof.
  intros He. unfold fileExtension.
  change ("." +:+ e) with (String "." e).
  rewrite Split_app, (Split_no_sep e "." He), length_app. simpl.
  replace (length (Split p ".") + 1 - 1) with (length (Split p ".") + 0)
    by lia.
  by rewrite nth_error_app2, Nat.add_0_r, Nat.sub_diag by lia.
Qed.

(** An identifier without a dot is taken whole. *)
Lemma fileExtension_no_dot (filename : string) :
  "."%char ∉ bytes filename → fileExtension filename = Some filename.
Proof.
  intros Hno. unfold fileExtension. by rewrite (Split_no_sep _ _ Hno).
Qed.

(** A tag that is none of the four known ones selects JSON. *)
Lemma formatOfTag_default (tag : string) :
  tag ∉ ["json"; "xml"; "yml"; "yaml"] → formatOfTag tag = JSON.
Proof.
  intros Hno. unfold formatOfTag.
  destruct (String.eqb tag "json"); [done|].
  destruct (String.eqb tag "xml") eqn:Hx.
  { apply String.eqb_eq in Hx as ->. exfalso. apply Hno. set_solver. }
  destruct (String.eqb tag "yml") eqn:Hy.
  { apply String.eqb_eq in Hy as ->. exfalso. apply Hno. set_solver. }
  destruct (String.eqb tag "yaml") eqn:Hy'.
  { apply String.eqb_eq in Hy' as ->. exfalso. apply Hno. set_solver. }
  done.
Qed.

Lemma selectFormat_total (filename : string) :
  ∃ ext, fileExtension filename = Some ext
         ∧ selectFormat filename = Some (formatOfTag (ToLower ext)).
Proof.
  unfold selectFormat, fileExtension.
  pose proof (Split_nonempty filename ".") as Hne.
  destruct (nth_error (Split filename ".") (length (Split filename ".") - 1))
    as [ext|] eqn:Hnth.
  - by exists ext.
  - apply nth_error_None in Hnth.
    destruct (Split filename "."); [done|]. simpl in Hnth. lia.
Qed.

End Extension.

(** ** Load and the stream it acquires *)

Section LoadFacts.

Context (w : World).
Implicit Types (l : Loader) (filename : string) (reader : Reader).
Implicit Types (st : Stream) (into : Target w) (fmt : Format).

Lemma decodeLoop_suffix {T : Type} (d : StreamDecoder T)
    (rerr : option error) (buf : list ascii) (chunks : list (list ascii))
    (t : T) :
  ∃ n, (decodeLoop d rerr buf chunks t).1.1 = drop n chunks.
Proof.
  revert buf. induction chunks as [|c chunks IH]; intros buf; simpl.
  - exists 0. destruct rerr; [done|]. by destruct (finish d buf t).
  - destruct (scan d (buf ++ c) t).
    + destruct (IH (buf ++ c)) as [n Hn]. by exists (S n).
    + by exists 1.
Qed.

Lemma Decode_unread {T : Type} (d : StreamDecoder T) reader st (t : T) :
  unread (Decode d reader st t).1.1
  = (decodeLoop d (readErr reader) [] (unread st) t).1.1.
Proof.
  unfold Decode.
  by destruct (decodeLoop d (readErr reader) [] (unread st) t) as [[? ?] ?].
Qed.

Lemma Decode_closeCalls {T : Type} (d : StreamDecoder T) reader st (t : T) :
  closeCalls (Decode d reader st t).1.1 = closeCalls st.
Proof.
  unfold Decode.
  by destruct (decodeLoop d (readErr reader) [] (unread st) t) as [[? ?] ?].
Qed.

(** No decoder closes the stream. *)
Lemma decodeAs_closeCalls fmt reader st into :
  closeCalls (decodeAs w fmt reader st into).1.1 = closeCalls st.
Proof.
  destruct fmt; simpl; [apply Decode_closeCalls..|].
  destruct (readErr reader); [done|].
  by destruct (yamlUnmarshal w (concat (unread st)) into).
Qed.

(** The decoders look at what the reader hands out and at how its reads
    end, not at its [Close] method. *)
Lemma decodeAs_reads fmt (r1 r2 : Reader) st into :
  readErr r1 = readErr r2 →
  decodeAs w fmt r1 st into = decodeAs w fmt r2 st into.
Proof.
  intros Herr. destruct fmt; simpl; unfold Decode; by rewrite Herr.
Qed.

(** [Load] once [GetReader] has returned a reader and the format is
    chosen: decode, then run the deferred [Close]. *)
Lemma Load_acquired l ord filename into reader fmt :
  GetReader w l ord filename = Returns (inl reader) →
  selectFormat filename = Some fmt →
  Load w l ord filename into
  = let out := decodeAs w fmt reader (open reader) into in
    {| result := Returns out.2;
       target := out.1.2;
       acquired :=
         Some (reader,
               match asCloser reader with
               | Some close => (close out.1.1).1
               | None => out.1.1
               end) |}.
Proof.
  intros Hget Hfmt. unfold Load. rewrite Hget, Hfmt.
  by destruct (decodeAs w fmt reader (open reader) into) as [[? ?] ?].
Qed.

End LoadFacts.

(** C3: when [GetReader] has returned a reader, that reader is the stream
    [Load] leaves behind, and by the time [Load] returns its [Close] has been
    called once if it has a [Close] method and not at all otherwise, whatever
    the decoding did. *)
Theorem acquired_stream_closed_once (w : World) (l : Loader)
    (ord : list (positive * (Regexp * TypeLoader))) (filename : string)
    (into : Target w) (reader : Reader) :
  GetReader w l ord filename = Returns (inl reader) →
  ∃ st, acquired (Load w l ord filename into) = Some (reader, st)
        ∧ closeCalls st = match closer reader with
                          | Some _ => 1
                          | None => 0
                          end.
Proof.
  intros Hget.
  destruct (selectFormat_total filename) as (ext & _ & Hfmt).
  rewrite (Load_acquired w l ord filename into reader _ Hget Hfmt).
  cbn [acquired]. eexists. split; [done|].
  unfold asCloser. destruct (closer reader); simpl.
  - by rewrite decodeAs_closeCalls.
  - by rewrite decodeAs_closeCalls.
Qed.

Lemma acquired_stream_closed_once_witness :
  ∃ st, acquired (Load (testWorld noFiles)
                    (serving (failing ["a: 1"] unexpectedEOF)) []
                    "cfg.yml" "")
        = Some (failing ["a: 1"] unexpectedEOF, st)
        ∧ closeCalls st = 1.
Proof.
  apply (acquired_stream_closed_once (testWorld noFiles)
           (serving (failing ["a: 1"] unexpectedEOF)) []
           "cfg.yml" "" (failing ["a: 1"] unexpectedEOF)).
  reflexivity.
Defined.

(** C4, as stated, fails: a [Close] that fails leaves the caller of [Load]
    with the same result and target as a [Close] that succeeds. *)
Lemma release_failure_not_reported :
  ¬ ReleaseFailureReported (testWorld noFiles) "cfg.json" ""
      [Strings.bytes "{}"] None closeError.
Proof. intros Hclaim. apply Hclaim. reflexivity. Qed.

(** C4, amended: the result of [Load] is the result of the decoding step, so
    a decoding failure is the error returned; what [Close] returns is thrown
    away: two readers that hand out the same data and differ in their
    [Close] give the same result and the same target. *)
Theorem release_result_discarded (w : World) (l1 l2 : Loader)
    (ord1 ord2 : list (positive * (Regexp * TypeLoader))) (filename : string)
    (into : Target w) (r1 r2 : Reader) (fmt : Format) :
  GetReader w l1 ord1 filename = Returns (inl r1) →
  GetReader w l2 ord2 filename = Returns (inl r2) →
  selectFormat filename = Some fmt →
  content r1 = content r2 →
  readErr r1 = readErr r2 →
  result (Load w l1 ord1 filename into)
  = Returns (decodeAs w fmt r1 (open r1) into).2
  ∧ result (Load w l1 ord1 filename into)
    = result (Load w l2 ord2 filename into)
  ∧ target (Load w l1 ord1 filename into)
    = target (Load w l2 ord2 filename into).
Proof.
  intros H1 H2 Hfmt Hc He.
  rewrite (Load_acquired w l1 ord1 filename into r1 fmt H1 Hfmt).
  rewrite (Load_acquired w l2 ord2 filename into r2 fmt H2 Hfmt).
  cbn [result target]. unfold open. rewrite Hc.
  by rewrite (decodeAs_reads w fmt r1 r2 _ into He).
Qed.

Lemma release_result_discarded_witness :
  result (Load (testWorld noFiles)
            (serving (closing ["x"; "{}"] (Some closeError))) []
            "cfg.json" "")
  = Returns (Some syntaxError)
  ∧ result (Load (testWorld noFiles)
              (serving (closing ["x"; "{}"] (Some closeError))) []
              "cfg.json" "")
    = result (Load (testWorld noFiles)
                (serving (closing ["x"; "{}"] None)) [] "cfg.json" "")
  ∧ target (Load (testWorld noFiles)
              (serving (closing ["x"; "{}"] (Some closeError))) []
              "cfg.json" "")
    = target (Load (testWorld noFiles)
                (serving (closing ["x"; "{}"] None)) [] "cfg.json" "").
Proof.
  apply (release_result_discarded (testWorld noFiles)
           (serving (closing ["x"; "{}"] (Some closeError)))
           (serving (closing ["x"; "{}"] None)) [] [] "cfg.json" ""
           (closing ["x"; "{}"] (Some closeError))
           (closing ["x"; "{}"] None) JSON); reflexivity.
Defined.

(** C5, as stated, fails: the JSON decoder stops reading at the end of the
    first value, and what follows it in the stream is still unread when
    [Load] returns. *)
Lemma stream_left_partly_unread :
  ¬ WholeStreamConsumed
      (Load (testWorld noFiles) (serving (plain ["{}"; "{}"])) []
         "cfg.json" "").
Proof.
  intros Hclaim.
  specialize (Hclaim (plain ["{}"; "{}"])
                {| unread := [Strings.bytes "{}"]; closeCalls := 0 |}
                eq_refl).
  discriminate Hclaim.
Qed.

(** C5, amended: for a YAML identifier [Load] reads the stream to its end
    before decoding, whether or not decoding then succeeds; for the other
    formats it hands the reader to the library decoder, and what is consumed
    is what that decoder reads, a prefix of the stream. *)
Theorem stream_consumed_as_decoder_reads (w : World) (l : Loader)
    (ord : list (positive * (Regexp * TypeLoader))) (filename : string)
    (into : Target w) (reader : Reader) (fmt : Format) :
  GetReader w l ord filename = Returns (inl reader) →
  selectFormat filename = Some fmt →
  ∃ st, acquired (Load w l ord filename into) = Some (reader, st)
        ∧ unread st
          = match fmt with
            | YAML => []
            | JSON => (decodeLoop (jsonDecoder w) (readErr reader) []
                         (content reader) into).1.1
            | XML => (decodeLoop (xmlDecoder w) (readErr reader) []
                        (content reader) into).1.1
            end
        ∧ ∃ n, unread st = drop n (content reader).
Proof.
  intros Hget Hfmt.
  rewrite (Load_acquired w l ord filename into reader fmt Hget Hfmt).
  cbn [acquired]. eexists. split; [done|].
  assert (Hun : ∀ s : Stream,
            unread (match asCloser reader with
                    | Some close => (close s).1
                    | None => s
                    end) = unread s).
  { intros s. unfold asCloser. by destruct (closer reader). }
  rewrite !Hun.
  assert (Heq : unread (decodeAs w fmt reader (open reader) into).1.1
                = match fmt with
                  | YAML => []
                  | JSON => (decodeLoop (jsonDecoder w) (readErr reader) []
                               (content reader) into).1.1
                  | XML => (decodeLoop (xmlDecoder w) (readErr reader) []
                              (content reader) into).1.1
                  end).
  { destruct fmt; simpl; [apply Decode_unread..|].
    destruct (readErr reader); [done|].
    by destruct (yamlUnmarshal w (concat (content reader)) into). }
  split; [done|]. rewrite Heq. destruct fmt.
  - apply decodeLoop_suffix.
  - apply decodeLoop_suffix.
  - exists (length (content reader)). by rewrite drop_all.
Qed.

Lemma stream_consumed_as_decoder_reads_witness :
  ∃ st, acquired (Load (testWorld noFiles) (serving (plain ["{}"; "{}"])) []
                    "cfg.YAML" "")
        = Some (plain ["{}"; "{}"], st)
        ∧ unread st = []
        ∧ ∃ n, unread st = drop n (content (plain ["{}"; "{}"])).
Proof.
  apply (stream_consumed_as_decoder_reads (testWorld noFiles)
           (serving (plain ["{}"; "{}"])) [] "cfg.YAML" ""
           (plain ["{}"; "{}"]) YAML); reflexivity.
Defined.

(** C10: when [GetReader] returns a reader, [GetReadCloser] returns a
    [ReadCloser] over that reader: the reader itself if it has a [Close]
    method, otherwise a wrapper whose [Close] returns nil and leaves the
    stream as it is; when [GetReader] returns an error, [GetReadCloser]
    returns that error. *)
Theorem GetReadCloser_wraps_GetReader (w : World) (l : Loader)
    (ord : list (positive * (Regexp * TypeLoader))) (filename : string) :
  (∀ r, GetReader w l ord filename = Returns (inl r) →
        ∃ rc, GetReadCloser w l ord filename = Returns (inl rc)
              ∧ underlying rc = r
              ∧ (is_Some (closer r) → rc = Itself r)
              ∧ (closer r = None →
                 rc = NopCloser r
                 ∧ ∀ st, ReadCloser_Close rc st = (st, None)))
  ∧ (∀ e, GetReader w l ord filename = Returns (inr e) →
          GetReadCloser w l ord filename = Returns (inr e)).
Proof.
  split.
  - intros r Hget. unfold GetReadCloser. rewrite Hget. unfold asCloser.
    destruct (closer r) as [res|] eqn:Hc.
    + exists (Itself r). repeat split; [done|]. intros; discriminate.
    + exists (NopCloser r). repeat split; [|done..].
      intros [x Hx]. discriminate.
  - intros e Hget. unfold GetReadCloser. by rewrite Hget.
Qed.

Lemma GetReadCloser_wraps_GetReader_witness :
  ∃ rc, GetReadCloser (testWorld noFiles) (serving (plain ["{}"])) []
          "cfg.json"
        = Returns (inl rc)
        ∧ underlying rc = plain ["{}"]
        ∧ (is_Some (closer (plain ["{}"])) → rc = Itself (plain ["{}"]))
        ∧ (closer (plain ["{}"]) = None →
           rc = NopCloser (plain ["{}"])
           ∧ ∀ st, ReadCloser_Close rc st = (st, None)).
Proof.
  apply (proj1 (GetReadCloser_wraps_GetReader (testWorld noFiles)
                  (serving (plain ["{}"])) [] "cfg.json")
           (plain ["{}"])).
  reflexivity.
Defined.

(** C8: the selection of a format never fails, and an extension that is
    none of the known tags selects JSON. But an identifier without a dot,
    which has no extension, is taken whole for its extension: at the
    identifier "yaml" [Load] decodes with the YAML decoder (the whole stream
    is read and handed to [yaml.Unmarshal]) instead of the JSON one, which
    the identifier "noext" gets. *)
Theorem name_without_dot_taken_as_extension :
  (∀ filename, ∃ ext,
     fileExtension filename = Some ext
     ∧ selectFormat filename = Some (formatOfTag (Strings.ToLower ext)))
  ∧ (∀ filename ext,
       fileExtension filename = Some ext →
       Strings.ToLower ext ∉ ["json"; "xml"; "yml"; "yaml"] →
       selectFormat filename = Some JSON)
  ∧ (∀ filename,
       "."%char ∉ Strings.bytes filename →
       selectFormat filename
       = Some (formatOfTag (Strings.ToLower filename)))
  ∧ ("."%char ∉ Strings.bytes "yaml")
  ∧ fileExtension "yaml" = Some "yaml"
  ∧ selectFormat "yaml" = Some YAML
  ∧ Load (testWorld noFiles) (serving (plain ["{}"; "{}"])) [] "yaml" ""
    = {| result := Returns None;
         target := "{}{}";
         acquired := Some (plain ["{}"; "{}"],
                           {| unread := []; closeCalls := 0 |}) |}
  ∧ Load (testWorld noFiles) (serving (plain ["{}"; "{}"])) [] "noext" ""
    = {| result := Returns None;
         target := "{}";
         acquired := Some (plain ["{}"; "{}"],
                           {| unread := [Strings.bytes "{}"];
                              closeCalls := 0 |}) |}.
Proof.
  split; [exact selectFormat_total|].
  split.
  { intros filename ext Hext Hno. unfold selectFormat. rewrite Hext.
    by rewrite (formatOfTag_default _ Hno). }
  split.
  { intros filename Hno. unfold selectFormat.
    by rewrite (fileExtension_no_dot _ Hno). }
  split; [|repeat split; reflexivity].
  by_evaluation.
Qed.

(** C9: for an identifier with a dot, the extension is the text after the
    last dot and the format is a function of that text in lower case; so
    two identifiers whose texts after the last dot are equal up to the case
    of their letters get the same format, as "a.JSON" and "a.json" do. *)
Theorem format_from_lowercased_suffix :
  (∀ p e, "."%char ∉ Strings.bytes e →
          fileExtension (p +:+ "." +:+ e) = Some e
          ∧ selectFormat (p +:+ "." +:+ e)
            = Some (formatOfTag (Strings.ToLower e)))
  ∧ (∀ p1 e1 p2 e2,
       "."%char ∉ Strings.bytes e1 → "."%char ∉ Strings.bytes e2 →
       Strings.ToLower e1 = Strings.ToLower e2 →
       selectFormat (p1 +:+ "." +:+ e1) = selectFormat (p2 +:+ "." +:+ e2))
  ∧ (∀ f1 e1 f2 e2,
       fileExtension f1 = Some e1 → fileExtension f2 = Some e2 →
       Strings.ToLower e1 = Strings.ToLower e2 →
       selectFormat f1 = selectFormat f2)
  ∧ selectFormat "a.JSON" = selectFormat "a.json".
Proof.
  assert (H1 : ∀ p e, "."%char ∉ Strings.bytes e →
                 fileExtension (p +:+ "." +:+ e) = Some e
                 ∧ selectFormat (p +:+ "." +:+ e)
                   = Some (formatOfTag (Strings.ToLower e))).
  { intros p e He. pose proof (fileExtension_after_last_dot p e He) as Hx.
    split; [done|]. unfold selectFormat. by rewrite Hx. }
  split; [done|]. split; [|split; [|reflexivity]].
  - intros p1 e1 p2 e2 He1 He2 Hlow.
    destruct (H1 p1 e1 He1) as [_ ->]. destruct (H1 p2 e2 He2) as [_ ->].
    by rewrite Hlow.
  - intros f1 e1 f2 e2 He1 He2 Hlow. unfold selectFormat.
    by rewrite He1, He2, Hlow.
Qed.

Lemma format_from_lowercased_suffix_witness :
  selectFormat ("dir/data.v2" +:+ "." +:+ "YmL")
  = selectFormat ("s3://bucket1/key1" +:+ "." +:+ "yml").
Proof.
  apply (proj1 (proj2 format_from_lowercased_suffix)
           "dir/data.v2" "YmL" "s3://bucket1/key1" "yml");
    [by_evaluation..|reflexivity].
Defined.

(** * Further properties of the code *)

(** ** What the pattern of the default registry accepts *)

Section S3PatternLanguage.

Import Strings.

Lemma run_lits_inv (str : string) (rest : Regexp) (pos : nat)
    (t : list ascii) (caps res : Caps) (k : Cont) :
  run (lits str rest) pos t caps k = Some res →
  ∃ t', t = bytes str ++ t'
        ∧ run rest (pos + length (bytes str)) t' caps k = Some res.
Proof.
  revert pos t. induction str as [|c str IH]; intros pos t H.
  - exists t. split; [done|]. simpl. by rewrite Nat.add_0_r.
  - cbn [lits run] in H. destruct t as [|c' t]; [discriminate|].
    destruct (Ascii.eqb c' c) eqn:Hc; [|discriminate].
    apply Ascii.eqb_eq in Hc as ->.
    apply IH in H as (t' & -> & H). exists t'. split; [done|].
    by replace (pos + length (bytes (String c str)))
         with (S pos + length (bytes str)) by (simpl; lia).
Qed.

(** Whatever the loop of a one-byte body matched is a stretch of accepted
    bytes. *)
Lemma starLoop_class_inv (m : nat → list ascii → Caps → Cont → option Caps)
    (p : ascii → bool) :
  (∀ pos c s caps K,
     m pos (c :: s) caps K = if p c then K (S pos) s caps else None) →
  (∀ pos caps K, m pos [] caps K = None) →
  ∀ (n pos : nat) (s : list ascii) (caps res : Caps) (k : Cont),
    starLoop m k n pos s caps = Some res →
    ∃ b t, s = b ++ t ∧ Forall (λ c, p c = true) b
           ∧ k (pos + length b) t caps = Some res.
Proof.
  intros Hcons Hnil n. induction n as [|n IH]; intros pos s caps res k H.
  - exists [], s. simpl in *. by rewrite Nat.add_0_r.
  - assert (Hstop : k pos s caps = Some res →
              ∃ b t, s = b ++ t ∧ Forall (λ c, p c = true) b
                     ∧ k (pos + length b) t caps = Some res).
    { intros Hk. exists [], s. simpl. by rewrite Nat.add_0_r. }
    simpl in H. destruct s as [|c s].
    + rewrite Hnil in H. by apply Hstop.
    + rewrite Hcons in H. destruct (p c) eqn:Hc; [|by apply Hstop].
      assert (Hlt : (length s <? length (c :: s)) = true)
        by (apply Nat.ltb_lt; simpl; lia).
      rewrite Hlt in H.
      destruct (starLoop m k n (S pos) s caps) as [r|] eqn:Hloop;
        [|by apply Hstop].
      simpl in H. injection H as ->.
      apply IH in Hloop as (b & t & -> & Hb & Hk).
      exists (c :: b), t. split; [done|]. split; [by constructor|].
      simpl. by replace (pos + S (length b)) with (S pos + length b) by lia.
Qed.

Lemma matchAt_reS3Filename_inv (pos : nat) (s : list ascii) (res : Caps) :
  matchAt reS3Filename pos s = Some res →
  pos = 0
  ∧ ∃ bucket key,
      s = bytes "s3://" ++ bucket ++ "/"%char :: key
      ∧ bucket ≠ []
      ∧ Forall (λ c, notSlash c = true) bucket
      ∧ Forall (λ c, notNewline c = true) key.
Proof.
  unfold matchAt, reS3Filename. intros H.
  change (run (RCat RBegin ?x) pos s ?c ?k)
    with (if Nat.eqb pos 0 then run x pos s c k else None) in H.
  destruct (Nat.eqb pos 0) eqn:Hpos; [|discriminate].
  apply Nat.eqb_eq in Hpos as ->. split; [done|].
  apply run_lits_inv in H as (t & -> & H).
  cbn [run] in H.
  destruct t as [|b0 t]; [discriminate|].
  destruct (inClass b0 ["/"%char]) eqn:Hb0; [discriminate|].
  apply (starLoop_class_inv (run (RNotIn ["/"%char])) notSlash) in H
    as (b & t' & -> & Hb & H);
    [|intros; apply run_RNotIn_cons|done].
  destruct t' as [|c' t']; [discriminate|].
  destruct (Ascii.eqb c' "/") eqn:Hc'; [|discriminate].
  apply Ascii.eqb_eq in Hc' as ->.
  apply (starLoop_class_inv _ notNewline) in H as (key & t'' & -> & Hkey & H);
    [| intros; unfold notNewline; by destruct (Ascii.eqb c newline) | done].
  destruct t'' as [|? ?]; [|discriminate].
  exists (b0 :: b), key. rewrite app_nil_r.
  split; [done|]. split; [done|]. split; [|done].
  constructor; [|done]. unfold notSlash. by rewrite Hb0.
Qed.

Lemma search_inv (r : Regexp) (pos : nat) (s : list ascii) (res : Caps) :
  search r pos s = Some res →
  ∃ pre post, s = pre ++ post
              ∧ matchAt r (pos + length pre) post = Some res.
Proof.
  revert pos. induction s as [|c s IH]; intros pos H; simpl in H.
  - destruct (matchAt r pos []) eqn:Hm; [|discriminate].
    exists [], []. simpl. rewrite Nat.add_0_r. by rewrite Hm.
  - destruct (matchAt r pos (c :: s)) eqn:Hm.
    + exists [], (c :: s). simpl. rewrite Nat.add_0_r. by rewrite Hm.
    + simpl in H. apply IH in H as (pre & post & -> & H).
      exists (c :: pre), post. split; [done|]. simpl.
      by replace (pos + S (length pre)) with (S pos + length pre) by lia.
Qed.

Lemma bytes_inj (a b : string) : bytes a = bytes b → a = b.
Proof.
  intros H. rewrite <- (string_of_bytes a), <- (string_of_bytes b).
  by rewrite H.
Qed.

Lemma bytes_of_list (l : list ascii) : bytes (string_of_list_ascii l) = l.
Proof. apply list_ascii_of_string_of_list_ascii. Qed.

Lemma notSlash_Forall (b : list ascii) :
  Forall (λ c, notSlash c = true) b → "/"%char ∉ b.
Proof.
  intros Hb Hin. rewrite Forall_forall in Hb. specialize (Hb _ Hin).
  by vm_compute in Hb.
Qed.

Lemma notNewline_Forall (b : list ascii) :
  Forall (λ c, notNewline c = true) b → newline ∉ b.
Proof.
  intros Hb Hin. rewrite Forall_forall in Hb. specialize (Hb _ Hin).
  by vm_compute in Hb.
Qed.

(** The pattern matches exactly the identifiers of the shape
    s3://bucket/key. *)
Lemma MatchString_reS3Filename (filename : string) :
  MatchString reS3Filename filename = true
  ↔ ∃ bucket key, S3Shaped filename bucket key.
Proof.
  split.
  - unfold MatchString. intros H.
    destruct (search reS3Filename 0 (bytes filename)) as [res|] eqn:Hs;
      [|discriminate].
    apply search_inv in Hs as (pre & post & Hf & Hm).
    apply matchAt_reS3Filename_inv in Hm
      as (Hpos & bucket & key & -> & Hne & Hb & Hk).
    destruct pre; [|simpl in Hpos; lia]. simpl in Hf.
    exists (string_of_list_ascii bucket), (string_of_list_ascii key).
    split; [|split; [|split]].
    + apply bytes_inj. rewrite !bytes_app, !bytes_of_list. by rewrite Hf.
    + intros Heq. apply (f_equal bytes) in Heq.
      rewrite bytes_of_list in Heq. done.
    + rewrite bytes_of_list. by apply notSlash_Forall.
    + rewrite bytes_of_list. by apply notNewline_Forall.
  - intros (bucket & key & H). by apply (MatchString_S3Shaped _ bucket key).
Qed.

(** A list is cut at the first occurrence of a byte in one way only. *)
Lemma split_at_first (x : ascii) (l1 r1 l2 r2 : list ascii) :
  x ∉ l1 → x ∉ l2 → l1 ++ x :: r1 = l2 ++ x :: r2 → l1 = l2 ∧ r1 = r2.
Proof.
  revert l2. induction l1 as [|a l1 IH]; intros l2 H1 H2 Heq.
  - destruct l2 as [|a2 l2]; simpl in Heq.
    + by injection Heq as ->.
    + injection Heq as <- _. exfalso. apply H2. by left.
  - destruct l2 as [|a2 l2]; simpl in Heq.
    + injection Heq as -> _. exfalso. apply H1. by left.
    + injection Heq as -> Heq.
      apply not_elem_of_cons in H1 as [_ H1].
      apply not_elem_of_cons in H2 as [_ H2].
      destruct (IH l2 H1 H2 Heq) as [-> ->]. done.
Qed.

Lemma not_S3Shaped_by_match (filename : string) :
  MatchString reS3Filename filename = false →
  ∀ bucket key, ¬ S3Shaped filename bucket key.
Proof.
  intros Hm bucket key H.
  assert (MatchString reS3Filename filename = true) as Ht
    by (apply MatchString_reS3Filename; eauto).
  congruence.
Qed.

Lemma no_match_by_shape (filename : string) :
  (∀ bucket key, ¬ S3Shaped filename bucket key) →
  MatchString reS3Filename filename = false.
Proof.
  intros Hno. destruct (MatchString reS3Filename filename) eqn:Hm; [|done].
  apply MatchString_reS3Filename in Hm as (bucket & key & H).
  by destruct (Hno bucket key).
Qed.

(** In the default registry a name of another shape finds the fallback. *)
Lemma DefaultLoader_local (w : World)
    (ord : list (positive * (Regexp * TypeLoader))) (filename : string) :
  IterationOrder DefaultLoader ord →
  (∀ bucket key, ¬ S3Shaped filename bucket key) →
  getReaderGetter DefaultLoader ord filename = Some FileLoader
  ∧ GetReader w DefaultLoader ord filename = Returns (osOpen w filename).
Proof.
  intros Hord Hno. apply IterationOrder_DefaultLoader in Hord as ->.
  unfold GetReader, getReaderGetter. simpl.
  by rewrite (no_match_by_shape _ Hno).
Qed.

Lemma DefaultLoader_remote (w : World)
    (ord : list (positive * (Regexp * TypeLoader)))
    (filename bucket key : string) :
  IterationOrder DefaultLoader ord →
  S3Shaped filename bucket key →
  getReaderGetter DefaultLoader ord filename = Some S3Loader
  ∧ GetReader w DefaultLoader ord filename
    = if sessionFails w then Panics else Returns (s3GetObject w bucket key).
Proof.
  intros Hord Hshape. apply IterationOrder_DefaultLoader in Hord as ->.
  unfold GetReader, getReaderGetter. simpl.
  rewrite (MatchString_S3Shaped _ _ _ Hshape). split; [done|].
  by apply S3Loader_GetReader_S3Shaped.
Qed.

Lemma IterationOrder_DefaultLoader_single :
  IterationOrder DefaultLoader [(1%positive, (reS3Filename, Some S3Loader))].
Proof. unfold IterationOrder. vm_compute. reflexivity. Qed.

End S3PatternLanguage.

(** ** Bound loaders *)

(** C7, as stated, fails on both counts. The identifier made of
    "s3://bucket1/", a newline and "key1" has the shape s3://bucket/key, yet
    the default registry finds [FileLoader] for it. And where the pattern
    that matches is bound to the nil loader, [GetReader] returns
    [ErrorNoReader]: no bound loader is called. *)
Lemma s3_name_may_go_to_fallback :
  (S3Named ("s3://" +:+ "bucket1" +:+ "/" +:+ String newline "key1")
   ∧ ¬ RoutedToS3 ("s3://" +:+ "bucket1" +:+ "/" +:+ String newline "key1")
   ∧ getReaderGetter DefaultLoader
       [(1%positive, (reS3Filename, Some S3Loader))]
       ("s3://" +:+ "bucket1" +:+ "/" +:+ String newline "key1")
     = Some FileLoader)
  ∧ (Matching nilBound "cfg.json" 1%positive reCfg None
     ∧ IterationOrder nilBound [(1%positive, (reCfg, None))]
     ∧ GetReader (testWorld (oneFile "cfg.json" (plain ["{}"]))) nilBound
         [(1%positive, (reCfg, None))] "cfg.json"
       = Returns (inr ErrorNoReader)).
Proof.
  split; [split; [|split]|split; [|split]].
  - exists "bucket1", (String newline "key1").
    split; [reflexivity|]. split; [discriminate|by_evaluation].
  - intros Hclaim.
    specialize (Hclaim _ IterationOrder_DefaultLoader_single).
    vm_compute in Hclaim. discriminate Hclaim.
  - reflexivity.
  - split; reflexivity.
  - unfold IterationOrder. vm_compute. reflexivity.
  - reflexivity.
Qed.

(** C7, amended: when some registered pattern matches the identifier, the
    loader found is the one bound to a matching pattern, and the fallback
    plays no part: replacing it changes nothing. If that loader is nil,
    [GetReader] returns [ErrorNoReader]; otherwise it returns what that
    loader's own [GetReader] returns for the identifier: what [os.Open]
    returns for [FileLoader], what [S3Loader]'s [GetReader] returns for
    [S3Loader], what the loader's function returns otherwise. In the default
    registry an identifier of the shape s3://bucket/key whose key holds no
    newline finds [S3Loader], which asks the object store for that bucket
    and key; one whose key holds a newline finds [FileLoader]. *)
Theorem matching_pattern_goes_to_bound_loader (w : World) :
  (∀ l ord filename k re rg,
     IterationOrder l ord → Matching l filename k re rg →
     (∃ k' re' rg',
        Matching l filename k' re' rg'
        ∧ getReaderGetter l ord filename = rg'
        ∧ GetReader w l ord filename
          = match rg' with
            | None => Returns (inr ErrorNoReader)
            | Some FileLoader => Returns (osOpen w filename)
            | Some S3Loader => S3Loader_GetReader w filename
            | Some (OtherLoader get) => get filename
            end)
     ∧ ∀ fb, GetReader w {| types := types l; fallback := fb |} ord filename
             = GetReader w l ord filename)
  ∧ (∀ ord filename bucket key,
       IterationOrder DefaultLoader ord → S3Shaped filename bucket key →
       getReaderGetter DefaultLoader ord filename = Some S3Loader
       ∧ GetReader w DefaultLoader ord filename
         = if sessionFails w then Panics
           else Returns (s3GetObject w bucket key))
  ∧ (∀ ord bucket key,
       IterationOrder DefaultLoader ord →
       "/"%char ∉ Strings.bytes bucket →
       newline ∈ Strings.bytes key →
       getReaderGetter DefaultLoader ord ("s3://" +:+ bucket +:+ "/" +:+ key)
       = Some FileLoader
       ∧ GetReader w DefaultLoader ord ("s3://" +:+ bucket +:+ "/" +:+ key)
         = Returns (osOpen w ("s3://" +:+ bucket +:+ "/" +:+ key))).
Proof.
  split; [|split].
  - intros l ord filename k re rg Hord Hm. split.
    + destruct (getReaderGetter_match l ord filename k re rg Hord Hm)
        as (k' & re' & rg' & Hm' & Hrg).
      exists k', re', rg'. split; [done|]. split; [done|].
      unfold GetReader. rewrite Hrg. by destruct rg' as [[| |get]|].
    + intros fb. unfold GetReader, getReaderGetter. simpl.
      destruct Hm as [Hk Hre].
      apply (IterationOrder_elem l ord) in Hk; [|done].
      clear Hord. induction ord as [|[k0 [re0 g0]] ord IH].
      * by apply elem_of_nil in Hk.
      * simpl. destruct (MatchString re0 filename) eqn:Hm0; [done|].
        apply elem_of_cons in Hk as [Heq|Hk]; [congruence|]. by apply IH.
  - intros ord filename bucket key Hord Hshape.
    by apply DefaultLoader_remote.
  - intros ord bucket key Hord Hbucket Hnl.
    apply DefaultLoader_local; [done|].
    intros b k (Hf & Hne & Hb & Hk).
    apply (f_equal Strings.bytes) in Hf. rewrite !bytes_app in Hf.
    apply app_inv_head in Hf. simpl in Hf.
    apply split_at_first in Hf as [_ Hkey]; [|done..].
    apply Hk. by rewrite <- Hkey.
Qed.

Lemma matching_pattern_goes_to_bound_loader_witness :
  ((∃ k' re' rg',
      Matching overlapping "cfg.json" k' re' rg'
      ∧ getReaderGetter overlapping [bindingB; bindingA] "cfg.json" = rg'
      ∧ GetReader (testWorld noFiles) overlapping [bindingB; bindingA]
          "cfg.json"
        = match rg' with
          | None => Returns (inr ErrorNoReader)
          | Some FileLoader => Returns (osOpen (testWorld noFiles) "cfg.json")
          | Some S3Loader => S3Loader_GetReader (testWorld noFiles) "cfg.json"
          | Some (OtherLoader get) => get "cfg.json"
          end)
   ∧ ∀ fb, GetReader (testWorld noFiles)
             {| types := types overlapping; fallback := fb |}
             [bindingB; bindingA] "cfg.json"
           = GetReader (testWorld noFiles) overlapping [bindingB; bindingA]
               "cfg.json")
  ∧ (getReaderGetter DefaultLoader
       [(1%positive, (reS3Filename, Some S3Loader))] "s3://bucket1/key1"
     = Some S3Loader
     ∧ GetReader (testWorld noFiles) DefaultLoader
         [(1%positive, (reS3Filename, Some S3Loader))] "s3://bucket1/key1"
       = Returns (inr notFound))
  ∧ (getReaderGetter DefaultLoader
       [(1%positive, (reS3Filename, Some S3Loader))]
       ("s3://" +:+ "bucket1" +:+ "/" +:+ String newline "key1")
     = Some FileLoader
     ∧ GetReader (testWorld noFiles) DefaultLoader
         [(1%positive, (reS3Filename, Some S3Loader))]
         ("s3://" +:+ "bucket1" +:+ "/" +:+ String newline "key1")
       = Returns (inr notFound)).
Proof.
  split; [|split].
  - apply (proj1 (matching_pattern_goes_to_bound_loader (testWorld noFiles))
             overlapping [bindingB; bindingA] "cfg.json" 1%positive reAny
             (Some providerA)).
    + exact IterationOrder_overlapping_BA.
    + split; reflexivity.
  - apply (proj1 (proj2 (matching_pattern_goes_to_bound_loader
                           (testWorld noFiles)))
             [(1%positive, (reS3Filename, Some S3Loader))]
             "s3://bucket1/key1" "bucket1" "key1").
    + exact IterationOrder_DefaultLoader_single.
    + repeat split; [discriminate|by_evaluation..].
  - apply (proj2 (proj2 (matching_pattern_goes_to_bound_loader
                           (testWorld noFiles)))
             [(1%positive, (reS3Filename, Some S3Loader))]
             "bucket1" (String newline "key1")).
    + exact IterationOrder_DefaultLoader_single.
    + by_evaluation.
    + by_evaluation.
Defined.

(** ** The default registry and the two loaders *)

(** X1: with the default registry every identifier goes one of two ways. If
    it has the shape s3://bucket/key, [GetReader] is [S3Loader]'s: it panics
    when the session cannot be made and otherwise is what the object store
    returns for that bucket and key. Every other identifier goes to
    [FileLoader], and [GetReader] is what [os.Open] returns for the
    identifier, reader or error. *)
Theorem DefaultLoader_dispatch (w : World)
    (ord : list (positive * (Regexp * TypeLoader))) (filename : string) :
  IterationOrder DefaultLoader ord →
  (∃ bucket key,
     S3Shaped filename bucket key
     ∧ getReaderGetter DefaultLoader ord filename = Some S3Loader
     ∧ Package.GetReader w ord filename
       = if sessionFails w then Panics
         else Returns (s3GetObject w bucket key))
  ∨ ((∀ bucket key, ¬ S3Shaped filename bucket key)
     ∧ getReaderGetter DefaultLoader ord filename = Some FileLoader
     ∧ Package.GetReader w ord filename = Returns (osOpen w filename)).
Proof.
  intros Hord. unfold Package.GetReader.
  destruct (MatchString reS3Filename filename) eqn:Hm.
  - apply MatchString_reS3Filename in Hm as (bucket & key & H).
    left. exists bucket, key. split; [done|].
    by apply DefaultLoader_remote.
  - right. pose proof (not_S3Shaped_by_match _ Hm) as Hno.
    split; [done|]. by apply DefaultLoader_local.
Qed.

Lemma DefaultLoader_dispatch_witness :
  (∃ bucket key,
     S3Shaped "s3://bucket1/dir/key1.json" bucket key
     ∧ getReaderGetter DefaultLoader
         [(1%positive, (reS3Filename, Some S3Loader))]
         "s3://bucket1/dir/key1.json" = Some S3Loader
     ∧ Package.GetReader (testWorld noFiles)
         [(1%positive, (reS3Filename, Some S3Loader))]
         "s3://bucket1/dir/key1.json"
       = if sessionFails (testWorld noFiles) then Panics
         else Returns (s3GetObject (testWorld noFiles) bucket key))
  ∨ ((∀ bucket key, ¬ S3Shaped "s3://bucket1/dir/key1.json" bucket key)
     ∧ getReaderGetter DefaultLoader
         [(1%positive, (reS3Filename, Some S3Loader))]
         "s3://bucket1/dir/key1.json" = Some FileLoader
     ∧ Package.GetReader (testWorld noFiles)
         [(1%positive, (reS3Filename, Some S3Loader))]
         "s3://bucket1/dir/key1.json"
       = Returns (osOpen (testWorld noFiles) "s3://bucket1/dir/key1.json")).
Proof.
  apply (DefaultLoader_dispatch (testWorld noFiles)
           [(1%positive, (reS3Filename, Some S3Loader))]
           "s3://bucket1/dir/key1.json").
  unfold IterationOrder. vm_compute. reflexivity.
Defined.

(** X2: called on an identifier that has not the shape s3://bucket/key,
    [S3Loader] returns the error of a bad match before it makes a session:
    it does not panic even where the session cannot be made, and it does not
    query the object store. *)
Theorem S3Loader_rejects_other_shapes (w : World) (filename : string) :
  (∀ bucket key, ¬ S3Shaped filename bucket key) →
  S3Loader_GetReader w filename = Returns (inr ErrorBadS3Match).
Proof.
  intros Hno. apply no_match_by_shape in Hno.
  unfold S3Loader_GetReader, FindStringSubmatch.
  unfold MatchString in Hno.
  by destruct (search reS3Filename 0 (Strings.bytes filename)).
Qed.

Lemma S3Loader_rejects_other_shapes_witness :
  S3Loader_GetReader (noSession noFiles) "s3://bucket1"
  = Returns (inr ErrorBadS3Match).
Proof.
  apply (S3Loader_rejects_other_shapes (noSession noFiles) "s3://bucket1").
  apply not_S3Shaped_by_match. reflexivity.
Defined.



(** X4: the default registry sends to the local file system an identifier
    that does not start with "s3://", one that names a bucket with no slash
    after it, and one whose bucket is empty: [GetReader] is what [os.Open]
    returns for it. *)
Theorem near_s3_names_are_local_files (w : World)
    (ord : list (positive * (Regexp * TypeLoader))) (filename : string) :
  IterationOrder DefaultLoader ord →
  (∀ rest, filename ≠ "s3://" +:+ rest)
  ∨ (∃ bucket, filename = "s3://" +:+ bucket
               ∧ ("/"%char ∉ Strings.bytes bucket))
  ∨ (∃ key, filename = "s3:///" +:+ key) →
  getReaderGetter DefaultLoader ord filename = Some FileLoader
  ∧ Package.GetReader w ord filename = Returns (osOpen w filename).
Proof.
  intros Hord Hcase. apply DefaultLoader_local; [done|].
  intros b k (Hf & Hne & Hb & Hk).
  destruct Hcase as [Hpre|[(bucket & -> & Hno)|(key & ->)]].
  - by apply (Hpre (b +:+ "/" +:+ k)).
  - apply (f_equal Strings.bytes) in Hf. rewrite !bytes_app in Hf.
    apply app_inv_head in Hf. apply Hno. rewrite Hf.
    apply elem_of_app. right. simpl. by left.
  - apply (f_equal Strings.bytes) in Hf.
    change ("s3:///" +:+ key) with ("s3://" +:+ "/" +:+ key) in Hf.
    rewrite !bytes_app in Hf. apply app_inv_head in Hf.
    destruct b as [|c b]; [done|]. simpl in Hf, Hb.
    injection Hf as <- _. apply Hb. by left.
Qed.

Lemma near_s3_names_are_local_files_witness :
  getReaderGetter DefaultLoader [(1%positive, (reS3Filename, Some S3Loader))]
    "s3:///key1" = Some FileLoader
  ∧ Package.GetReader (testWorld (oneFile "s3:///key1" (plain ["{}"])))
      [(1%positive, (reS3Filename, Some S3Loader))] "s3:///key1"
    = Returns (inl (plain ["{}"])).
Proof.
  apply (near_s3_names_are_local_files
           (testWorld (oneFile "s3:///key1" (plain ["{}"])))
           [(1%positive, (reS3Filename, Some S3Loader))] "s3:///key1").
  - exact IterationOrder_DefaultLoader_single.
  - right. right. exists "key1". reflexivity.
Defined.

(** X5: a key with a newline in it is not taken for an S3 key: the default
    registry sends the identifier s3://bucket/key to the local file system
    when the key holds a newline. *)
Theorem key_with_newline_is_local_file (w : World)
    (ord : list (positive * (Regexp * TypeLoader)))
    (bucket key : string) :
  IterationOrder DefaultLoader ord →
  "/"%char ∉ Strings.bytes bucket →
  newline ∈ Strings.bytes key →
  getReaderGetter DefaultLoader ord ("s3://" +:+ bucket +:+ "/" +:+ key)
  = Some FileLoader
  ∧ Package.GetReader w ord ("s3://" +:+ bucket +:+ "/" +:+ key)
    = Returns (osOpen w ("s3://" +:+ bucket +:+ "/" +:+ key)).
Proof.
  intros Hord Hbucket Hnl. apply DefaultLoader_local; [done|].
  intros b k (Hf & Hne & Hb & Hk).
  apply (f_equal Strings.bytes) in Hf. rewrite !bytes_app in Hf.
  apply app_inv_head in Hf. simpl in Hf.
  apply split_at_first in Hf as [_ Hkey]; [|done..].
  apply Hk. by rewrite <- Hkey.
Qed.

Lemma key_with_newline_is_local_file_witness :
  getReaderGetter DefaultLoader [(1%positive, (reS3Filename, Some S3Loader))]
    ("s3://" +:+ "bucket1" +:+ "/" +:+ String newline "key1")
  = Some FileLoader
  ∧ Package.GetReader (testWorld noFiles)
      [(1%positive, (reS3Filename, Some S3Loader))]
      ("s3://" +:+ "bucket1" +:+ "/" +:+ String newline "key1")
    = Returns (inr notFound).
Proof.
  apply (key_with_newline_is_local_file (testWorld noFiles)
           [(1%positive, (reS3Filename, Some S3Loader))]
           "bucket1" (String newline "key1")).
  - exact IterationOrder_DefaultLoader_single.
  - by_evaluation.
  - by_evaluation.
Defined.

(** X6: [Load] of the package on a local file. When [os.Open] fails, [Load]
    returns that error as it is, the target is untouched and no stream is
    held; when it succeeds, the file it returned is the stream [Load]
    decodes, with the decoder its extension selects, and closes. *)
Theorem Load_opens_local_file (w : World)
    (ord : list (positive * (Regexp * TypeLoader))) (filename : string)
    (into : Target w) :
  IterationOrder DefaultLoader ord →
  (∀ bucket key, ¬ S3Shaped filename bucket key) →
  match osOpen w filename with
  | inr e =>
      Package.Load w ord filename into
      = {| result := Returns (Some e); target := into; acquired := None |}
  | inl file =>
      ∃ fmt st,
        selectFormat filename = Some fmt
        ∧ result (Package.Load w ord filename into)
          = Returns (decodeAs w fmt file (open file) into).2
        ∧ target (Package.Load w ord filename into)
          = (decodeAs w fmt file (open file) into).1.2
        ∧ acquired (Package.Load w ord filename into) = Some (file, st)
        ∧ closeCalls st = match closer file with
                          | Some _ => 1
                          | None => 0
                          end
  end.
Proof.
  intros Hord Hno.
  destruct (DefaultLoader_local w ord filename Hord Hno) as [_ Hget].
  unfold Package.Load.
  destruct (osOpen w filename) as [file|e] eqn:Hopen.
  - destruct (selectFormat_total filename) as (ext & _ & Hfmt).
    rewrite (Load_acquired w DefaultLoader ord filename into file _
               Hget Hfmt).
    cbn [result target acquired]. eexists _, _.
    split; [done|]. split; [done|]. split; [done|]. split; [done|].
    unfold asCloser. destruct (closer file); simpl;
      by rewrite decodeAs_closeCalls.
  - unfold Load. by rewrite Hget.
Qed.

Lemma Load_opens_local_file_witness :
  Package.Load (testWorld noFiles)
    [(1%positive, (reS3Filename, Some S3Loader))] "missing.json" "before"
  = {| result := Returns (Some notFound); target := "before";
       acquired := None |}.
Proof.
  apply (Load_opens_local_file (testWorld noFiles)
           [(1%positive, (reS3Filename, Some S3Loader))] "missing.json"
           "before").
  - exact IterationOrder_DefaultLoader_single.
  - apply not_S3Shaped_by_match. reflexivity.
Defined.

(** ** Registries without a usable loader *)

(** X7: when no registered pattern matches the identifier and the fallback
    is nil, as in a [Loader] that was only declared, nothing panics: [Load]
    returns [ErrorNoReader] with the target untouched and no stream held,
    and [GetReadCloser] returns [ErrorNoReader]. *)
Theorem unroutable_name_fails_cleanly (w : World) (l : Loader)
    (ord : list (positive * (Regexp * TypeLoader))) (filename : string)
    (into : Target w) :
  IterationOrder l ord →
  (∀ k re rg, types l !! k = Some (re, rg) →
              MatchString re filename = false) →
  fallback l = None →
  Load w l ord filename into
  = {| result := Returns (Some ErrorNoReader); target := into;
       acquired := None |}
  ∧ GetReadCloser w l ord filename = Returns (inr ErrorNoReader).
Proof.
  intros Hord Hno Hfb.
  pose proof (getReaderGetter_no_match l ord filename Hord Hno) as Hrg.
  assert (Hget : GetReader w l ord filename = Returns (inr ErrorNoReader)).
  { unfold GetReader. by rewrite Hrg, Hfb. }
  unfold Load, GetReadCloser. by rewrite Hget.
Qed.

Lemma unroutable_name_fails_cleanly_witness :
  Load (testWorld noFiles) emptyLoader [] "s3://bucket1/key1.json" "before"
  = {| result := Returns (Some ErrorNoReader); target := "before";
       acquired := None |}
  ∧ GetReadCloser (testWorld noFiles) emptyLoader [] "s3://bucket1/key1.json"
    = Returns (inr ErrorNoReader).
Proof.
  apply (unroutable_name_fails_cleanly (testWorld noFiles) emptyLoader []
           "s3://bucket1/key1.json" "before").
  - unfold IterationOrder. simpl. by rewrite map_to_list_empty.
  - intros k re rg Hk. simpl in Hk. by rewrite lookup_empty in Hk.
  - reflexivity.
Defined.

(** X8: a pattern bound to the nil loader hides the fallback. When every
    binding whose pattern matches the identifier holds nil, [GetReader]
    returns [ErrorNoReader], whether or not a fallback is set. *)
Theorem nil_binding_hides_fallback (w : World) (l : Loader)
    (ord : list (positive * (Regexp * TypeLoader))) (filename : string)
    (k : positive) (re : Regexp) :
  IterationOrder l ord →
  Matching l filename k re None →
  (∀ k' re' rg', Matching l filename k' re' rg' → rg' = None) →
  GetReader w l ord filename = Returns (inr ErrorNoReader).
Proof.
  intros Hord Hm Hnil.
  destruct (getReaderGetter_match l ord filename k re None Hord Hm)
    as (k' & re' & rg' & Hm' & Hrg).
  rewrite (Hnil _ _ _ Hm') in Hrg. unfold GetReader. by rewrite Hrg.
Qed.

Lemma nil_binding_hides_fallback_witness :
  GetReader (testWorld (oneFile "cfg.json" (plain ["{}"]))) nilBound
    [(1%positive, (reCfg, None))] "cfg.json"
  = Returns (inr ErrorNoReader).
Proof.
  apply (nil_binding_hides_fallback
           (testWorld (oneFile "cfg.json" (plain ["{}"]))) nilBound
           [(1%positive, (reCfg, None))] "cfg.json" 1%positive reCfg).
  - unfold IterationOrder. vm_compute. reflexivity.
  - split; reflexivity.
  - intros k' re' rg' [Hk _]. unfold nilBound, mapLiteral in Hk.
    simpl in Hk. apply lookup_insert_Some in Hk as [[_ Hk]|[_ Hk]].
    + congruence.
    + by rewrite lookup_empty in Hk.
Defined.

(** ** The extension, once more *)

Section ExtensionShape.

Import Strings.

(** An identifier has no dot, or is cut at its last dot. *)
Lemma last_dot (filename : string) :
  ("."%char ∉ bytes filename)
  ∨ ∃ p e, filename = p +:+ "." +:+ e ∧ ("."%char ∉ bytes e).
Proof.
  induction filename as [|c s IH].
  - left. simpl. apply not_elem_of_nil.
  - destruct IH as [Hno|(p & e & -> & He)].
    + destruct (Ascii.eqb c ".") eqn:Hc.
      * apply Ascii.eqb_eq in Hc as ->. right. by exists EmptyString, s.
      * left. simpl. apply not_elem_of_cons. split; [|done].
        by apply Ascii.eqb_neq.
    + right. by exists (String c p), e.
Qed.

Lemma lowerByte_dot (c : ascii) :
  Ascii.eqb (lowerByte c) "." = Ascii.eqb c ".".
Proof. destruct c as [[] [] [] [] [] [] [] []]; reflexivity. Qed.

Lemma lowerByte_idem (c : ascii) : lowerByte (lowerByte c) = lowerByte c.
Proof. destruct c as [[] [] [] [] [] [] [] []]; reflexivity. Qed.

Lemma ToLower_idem (s : string) : ToLower (ToLower s) = ToLower s.
Proof.
  induction s as [|c s IH]; simpl; [done|]. by rewrite lowerByte_idem, IH.
Qed.

Lemma Split_ToLower (s : string) :
  Split (ToLower s) "." = map ToLower (Split s ".").
Proof.
  induction s as [|c s IH]; simpl; [done|].
  rewrite lowerByte_dot, IH.
  destruct (Ascii.eqb c "."); [done|]. by destruct (Split s ".").
Qed.

Lemma slash_in_ToLower (s : string) :
  "/"%char ∈ bytes s → "/"%char ∈ bytes (ToLower s).
Proof.
  induction s as [|c s IH]; simpl; intros Hin.
  - by apply elem_of_nil in Hin.
  - apply elem_of_cons in Hin as [<-|Hin]; [by left|]. right. by apply IH.
Qed.

Lemma no_slash_in_tags (tag : string) :
  tag ∈ ["json"; "xml"; "yml"; "yaml"] →
  ("/"%char ∉ bytes tag) ∧ tag ≠ EmptyString.
Proof.
  intros Hin.
  repeat (apply elem_of_cons in Hin as [->|Hin]; [split; [by_evaluation|done]|]).
  by apply elem_of_nil in Hin.
Qed.

End ExtensionShape.

(** X9: the extension [Load] goes by holds no dot, and it is the identifier
    itself when the identifier has no dot and otherwise what follows the
    identifier's last dot. *)
Theorem extension_is_last_dotless_part (filename : string) :
  ∃ ext, fileExtension filename = Some ext
         ∧ ("."%char ∉ Strings.bytes ext)
         ∧ ((("."%char ∉ Strings.bytes filename) ∧ ext = filename)
            ∨ ∃ p, filename = p +:+ "." +:+ ext).
Proof.
  destruct (last_dot filename) as [Hno|(p & e & -> & He)].
  - exists filename. split; [by apply fileExtension_no_dot|].
    split; [done|]. by left.
  - exists e. split; [by apply fileExtension_after_last_dot|].
    split; [done|]. right. by exists p.
Qed.

(** X10: what follows the last dot may be empty or run across a path
    separator, as in "./yaml" or "conf.d/yaml"; such an identifier is
    decoded as JSON whatever its last path element is. *)
Theorem dot_before_separator_selects_JSON (p e : string) :
  "."%char ∉ Strings.bytes e →
  ("/"%char ∈ Strings.bytes e) ∨ e = EmptyString →
  fileExtension (p +:+ "." +:+ e) = Some e
  ∧ selectFormat (p +:+ "." +:+ e) = Some JSON.
Proof.
  intros He Hcase.
  pose proof (fileExtension_after_last_dot p e He) as Hext.
  split; [done|]. unfold selectFormat. rewrite Hext. f_equal.
  apply formatOfTag_default. intros Hin.
  apply no_slash_in_tags in Hin as [Hslash Hne].
  destruct Hcase as [Hin| ->].
  - by apply Hslash, slash_in_ToLower.
  - by apply Hne.
Qed.

Lemma dot_before_separator_selects_JSON_witness :
  fileExtension ("conf" +:+ "." +:+ "d/YAML") = Some "d/YAML"
  ∧ selectFormat ("conf" +:+ "." +:+ "d/YAML") = Some JSON.
Proof.
  apply (dot_before_separator_selects_JSON "conf" "d/YAML").
  - by_evaluation.
  - left. by_evaluation.
Defined.

(** X11: the choice of the decoder ignores the case of the whole
    identifier: the identifier in lower case selects the decoder the
    identifier itself selects. *)
Theorem format_ignores_case_of_name (filename : string) :
  selectFormat (Strings.ToLower filename) = selectFormat filename.
Proof.
  unfold selectFormat, fileExtension.
  rewrite Split_ToLower, length_map, nth_error_map.
  destruct (nth_error (Strings.Split filename ".")
              (length (Strings.Split filename ".") - 1)); simpl; [|done].
  by rewrite ToLower_idem.
Qed.

(** ** The YAML branch *)

(** X12: in the YAML branch the stream is read whole before anything is
    decoded, so only its bytes matter, not the pieces they arrive in: two
    readers that hand out the same bytes and end the same way give the same
    result and target. If reading fails, [Load] returns the read error and
    the target is untouched. *)
Theorem yaml_sees_only_the_bytes (w : World) (l1 l2 : Loader)
    (ord1 ord2 : list (positive * (Regexp * TypeLoader))) (filename : string)
    (into : Target w) (r1 r2 : Reader) :
  GetReader w l1 ord1 filename = Returns (inl r1) →
  GetReader w l2 ord2 filename = Returns (inl r2) →
  selectFormat filename = Some YAML →
  concat (content r1) = concat (content r2) →
  readErr r1 = readErr r2 →
  result (Load w l1 ord1 filename into)
  = result (Load w l2 ord2 filename into)
  ∧ target (Load w l1 ord1 filename into)
    = target (Load w l2 ord2 filename into)
  ∧ ∀ e, readErr r1 = Some e →
         result (Load w l1 ord1 filename into) = Returns (Some e)
         ∧ target (Load w l1 ord1 filename into) = into.
Proof.
  intros H1 H2 Hfmt Hc He.
  rewrite (Load_acquired w l1 ord1 filename into r1 YAML H1 Hfmt).
  rewrite (Load_acquired w l2 ord2 filename into r2 YAML H2 Hfmt).
  cbn [result target decodeAs ReadAll open unread]. rewrite <- He, <- Hc.
  split; [done|]. split; [done|].
  intros e ->. done.
Qed.

Lemma yaml_sees_only_the_bytes_witness :
  result (Load (testWorld noFiles)
            (serving (failing ["a: 1"; "b: 2"] unexpectedEOF)) []
            "cfg.YML" "before")
  = result (Load (testWorld noFiles)
              (serving (failing ["a: "; "1b: 2"] unexpectedEOF)) []
              "cfg.YML" "before")
  ∧ target (Load (testWorld noFiles)
              (serving (failing ["a: 1"; "b: 2"] unexpectedEOF)) []
              "cfg.YML" "before")
    = target (Load (testWorld noFiles)
                (serving (failing ["a: "; "1b: 2"] unexpectedEOF)) []
                "cfg.YML" "before")
  ∧ ∀ e, Some unexpectedEOF = Some e →
         result (Load (testWorld noFiles)
                   (serving (failing ["a: 1"; "b: 2"] unexpectedEOF)) []
                   "cfg.YML" "before")
         = Returns (Some e)
         ∧ target (Load (testWorld noFiles)
                     (serving (failing ["a: 1"; "b: 2"] unexpectedEOF)) []
                     "cfg.YML" "before")
           = "before".
Proof.
  apply (yaml_sees_only_the_bytes (testWorld noFiles)
           (serving (failing ["a: 1"; "b: 2"] unexpectedEOF))
           (serving (failing ["a: "; "1b: 2"] unexpectedEOF)) [] []
           "cfg.YML" "before"
           (failing ["a: 1"; "b: 2"] unexpectedEOF)
           (failing ["a: "; "1b: 2"] unexpectedEOF));
    reflexivity.
Defined.
